(** * Logger: a shallow embedding of the TypeScript logging library

    The development follows the layout of the sources:
    - [types.ts]      : log levels, level names, [parseLogLevel], log entries;
    - [formatters.ts] : [SimpleFormatter], [TimestampedFormatter], [JsonFormatter];
    - [transports.ts] : console, memory and callback transports;
    - [logger.ts]     : the [Logger] class.

    JavaScript objects that are mutated and shared (logger instances, the
    transport arrays they reference, the entry buffers of memory transports)
    live in an explicit store, the [World]; references are plain numbers. *)

From stdpp Require Import base option list gmap.
From Stdlib Require Import ZArith Ascii String Bool Lia.

Local Open Scope string_scope.
Local Open Scope Z_scope.

(* ===================================================================== *)
(** ** types.ts : log levels *)
(* ===================================================================== *)

(** [enum LogLevel { ERROR = 0, WARN = 1, INFO = 2, DEBUG = 3, TRACE = 4 }] *)
Inductive LogLevel : Type := ERROR | WARN | INFO | DEBUG | TRACE.

(** The numeric value the enum member stands for at run time. *)
Definition LogLevel_value (l : LogLevel) : Z :=
  match l with
  | ERROR => 0 | WARN => 1 | INFO => 2 | DEBUG => 3 | TRACE => 4
  end.

(** The reverse reading of a number as an enum member ([n as LogLevel]). *)
Definition LogLevel_of_value (n : Z) : option LogLevel :=
  match n with
  | 0 => Some ERROR | 1 => Some WARN | 2 => Some INFO
  | 3 => Some DEBUG | 4 => Some TRACE
  | _ => None
  end.

Definition LogLevel_members : list LogLevel := [ERROR; WARN; INFO; DEBUG; TRACE].

Definition LogLevel_eqb (a b : LogLevel) : bool :=
  LogLevel_value a =? LogLevel_value b.

(** [LOG_LEVEL_NAMES : Record<LogLevel, string>] *)
Definition LOG_LEVEL_NAMES (l : LogLevel) : string :=
  match l with
  | ERROR => "ERROR" | WARN => "WARN" | INFO => "INFO"
  | DEBUG => "DEBUG" | TRACE => "TRACE"
  end.

(** *** Strings that are upper-cased

    The argument of [parseLogLevel] is a JavaScript string, a sequence of
    UTF-16 code units, each a number.  The string literals of the source
    are sequences of 8-bit characters; [code_units] gives their code
    units.

    [toUpperCase] is [String.prototype.toUpperCase].  It works character
    by character, and a character may become several.  The letters [a]-[z]
    become [A]-[Z].  Outside ASCII, the characters whose upper-case form
    consists of ASCII letters are listed with that form: dotless i
    (U+0131) becomes I, long s (U+017F) becomes S, sharp s (U+00DF)
    becomes SS, and the ligatures U+FB00 to U+FB06 become FF, FI, FL, FFI,
    FFL, ST and ST.  Every other code unit is kept: it is not an ASCII
    letter, and neither is the upper-case form JavaScript gives it, so it
    equals no level name before or after. *)
Abbreviation JsString := (list N) (only parsing).

Fixpoint code_units (s : string) : list N :=
  match s with
  | EmptyString => []
  | String c s' => N_of_ascii c :: code_units s'
  end.

Definition is_lower_unit (c : N) : bool := ((97 <=? c) && (c <=? 122))%N.
Definition is_upper_unit (c : N) : bool := ((65 <=? c) && (c <=? 90))%N.

Definition upper_code_unit (c : N) : list N :=
  if is_lower_unit c then [(c - 32)%N]
  else if (c =? 0x131)%N then [73%N]
  else if (c =? 0x17F)%N then [83%N]
  else if (c =? 0xDF)%N then [83%N; 83%N]
  else if (c =? 0xFB00)%N then [70%N; 70%N]
  else if (c =? 0xFB01)%N then [70%N; 73%N]
  else if (c =? 0xFB02)%N then [70%N; 76%N]
  else if (c =? 0xFB03)%N then [70%N; 70%N; 73%N]
  else if (c =? 0xFB04)%N then [70%N; 70%N; 76%N]
  else if (c =? 0xFB05)%N then [83%N; 84%N]
  else if (c =? 0xFB06)%N then [83%N; 84%N]
  else [c].

Definition toUpperCase (s : JsString) : JsString := flat_map upper_code_unit s.

(** [===] on strings *)
Fixpoint units_eqb (s t : JsString) : bool :=
  match s, t with
  | [], [] => true
  | c :: s', d :: t' => (c =? d)%N && units_eqb s' t'
  | _, _ => false
  end.

(** Decimal rendering of an integer property key and its reading back by
    [Number(...)], for the keys a numeric enum produces. *)
Definition digit_char (d : Z) : ascii := ascii_of_N (48 + Z.to_N d).

Fixpoint render_digits (fuel : nat) (n : Z) (acc : string) : string :=
  match fuel with
  | O => acc
  | S f =>
      let acc' := String (digit_char (n mod 10)) acc in
      if n / 10 =? 0 then acc' else render_digits f (n / 10) acc'
  end.

Definition key_of_index (n : Z) : string :=
  render_digits (S (Z.to_nat (Z.log2 n))) n EmptyString.

Fixpoint Number_digits (s : string) (acc : Z) : option Z :=
  match s with
  | EmptyString => Some acc
  | String c s' =>
      let n := Z.of_N (N_of_ascii c) in
      if (48 <=? n) && (n <=? 57) then Number_digits s' (10 * acc + (n - 48))
      else None
  end.

(** [Object.entries(LOG_LEVEL_NAMES)]: integer keys in ascending order,
    each key as a string. *)
Definition Object_entries_LOG_LEVEL_NAMES : list (string * string) :=
  map (fun l => (key_of_index (LogLevel_value l), LOG_LEVEL_NAMES l))
      LogLevel_members.

(** [Array.prototype.find] *)
Fixpoint Array_find {A} (p : A -> bool) (l : list A) : option A :=
  match l with
  | [] => None
  | x :: l' => if p x then Some x else Array_find p l'
  end.

(** [parseLogLevel(level: string): LogLevel | null]; [None] is [null]. *)
Definition parseLogLevel (level : JsString) : option LogLevel :=
  let upper := toUpperCase level in
  match Array_find (fun e => units_eqb (code_units (snd e)) upper)
                   Object_entries_LOG_LEVEL_NAMES with
  | Some entry =>
      match Number_digits (fst entry) 0 with
      | Some n => LogLevel_of_value n
      | None => None
      end
  | None => None
  end.

(** The lower-case form of an ASCII capital letter. *)
Definition lower_unit (d : N) : N := if is_upper_unit d then (d + 32)%N else d.

(** A string is a case variant of a name when it has the same length and
    every code unit is the name's or the lower-case form of the name's. *)
Fixpoint case_variant (s name : JsString) : bool :=
  match s, name with
  | [], [] => true
  | c :: s', d :: name' =>
      ((c =? d)%N || (c =? lower_unit d)%N) && case_variant s' name'
  | _, _ => false
  end.

(** A string of ASCII characters. *)
Definition is_ascii (s : JsString) : bool := forallb (fun c => (c <? 128)%N) s.


(* ===================================================================== *)
(** ** JavaScript values, JSON.stringify and Date.toISOString *)
(* ===================================================================== *)

(** The values a [Record<string, unknown>] is taken to hold: the JSON
    fragment of JavaScript plus [undefined], numbers being integers.  An
    object is the list of its own enumerable properties in enumeration
    order. *)
#[local] Unset Elimination Schemes.
Inductive JsValue : Type :=
  | JUndefined
  | JNull
  | JBool (b : bool)
  | JNumber (n : Z)
  | JString (s : string)
  | JArray (items : list JsValue)
  | JObject (props : list (string * JsValue)).

#[local] Set Elimination Schemes.

Definition is_undefined (v : JsValue) : bool :=
  match v with JUndefined => true | _ => false end.

Fixpoint join (sep : string) (l : list string) : string :=
  match l with
  | [] => EmptyString
  | [x] => x
  | x :: l' => x ++ sep ++ join sep l'
  end.

Definition Z_to_string (n : Z) : string :=
  if n <? 0 then "-" ++ key_of_index (- n) else key_of_index n.

Definition hex_digit (d : N) : ascii :=
  if (d <? 10)%N then ascii_of_N (48 + d) else ascii_of_N (87 + d).

Definition dquote : ascii := ascii_of_N 34.
Definition backslash : ascii := ascii_of_N 92.

(** The escape [JSON.stringify] emits for one character of a string. *)
Definition escape_char (c : ascii) : string :=
  let n := N_of_ascii c in
  if (n =? 34)%N then String backslash (String dquote EmptyString)
  else if (n =? 92)%N then String backslash (String backslash EmptyString)
  else if (n =? 8)%N then "\b"
  else if (n =? 9)%N then "\t"
  else if (n =? 10)%N then "\n"
  else if (n =? 12)%N then "\f"
  else if (n =? 13)%N then "\r"
  else if (n <? 32)%N then
    "\u00" ++ String (hex_digit (n / 16)) (String (hex_digit (n mod 16)) EmptyString)
  else String c EmptyString.

Fixpoint escape_string (s : string) : string :=
  match s with
  | EmptyString => EmptyString
  | String c s' => escape_char c ++ escape_string s'
  end.

Definition quote (s : string) : string :=
  String dquote (escape_string s ++ String dquote EmptyString).

(** The text [JSON.stringify] produces for a value that is not
    [undefined].  A property whose value is [undefined] is left out of an
    object; an [undefined] array element is rendered as [null]. *)
Fixpoint JSON_serialize (v : JsValue) : string :=
  match v with
  | JUndefined => "null"
  | JNull => "null"
  | JBool true => "true"
  | JBool false => "false"
  | JNumber n => Z_to_string n
  | JString s => quote s
  | JArray items =>
      "[" ++ join "," ((fix each (l : list JsValue) : list string :=
                          match l with
                          | [] => []
                          | x :: l' => JSON_serialize x :: each l'
                          end) items) ++ "]"
  | JObject props =>
      "{" ++ join "," ((fix each (l : list (string * JsValue)) : list string :=
                          match l with
                          | [] => []
                          | (k, x) :: l' =>
                              if is_undefined x then each l'
                              else (quote k ++ ":" ++ JSON_serialize x) :: each l'
                          end) props) ++ "}"
  end.

(** [JSON.stringify(v)]; [None] is the [undefined] it returns for
    [undefined]. *)
Definition JSON_stringify (v : JsValue) : option string :=
  if is_undefined v then None else Some (JSON_serialize v).

(** The members of the text of an object, one per property that is not
    [undefined]. *)
Fixpoint JSON_members (props : list (string * JsValue)) : list string :=
  match props with
  | [] => []
  | (k, x) :: rest =>
      if is_undefined x then JSON_members rest
      else (quote k ++ ":" ++ JSON_serialize x) :: JSON_members rest
  end.

(** [Object.keys(o).length] *)
Definition Object_keys_length (props : list (string * JsValue)) : nat :=
  List.length props.

(** Property lookup on an object built by successive assignments. *)
Fixpoint get_property (k : string) (props : list (string * JsValue)) : option JsValue :=
  match props with
  | [] => None
  | (k', v) :: rest => if String.eqb k k' then Some v else get_property k rest
  end.

(** A [Date] is its time value, milliseconds since the epoch (a valid
    date).  [toISOString] renders it in UTC. *)
Definition Date : Type := Z.

Fixpoint zeros (n : nat) : string :=
  match n with
  | O => EmptyString
  | S k => String "0" (zeros k)
  end.

Definition padStart (width : nat) (s : string) : string :=
  zeros (width - String.length s) ++ s.

Definition pad (width : nat) (n : Z) : string := padStart width (key_of_index n).

(** Year, month and day of a day count since 1970-01-01 (proleptic
    Gregorian calendar). *)
Definition civil_from_days (days : Z) : Z * Z * Z :=
  let z := days + 719468 in
  let era := z / 146097 in
  let doe := z - era * 146097 in
  let yoe := (doe - doe / 1460 + doe / 36524 - doe / 146096) / 365 in
  let doy := doe - (365 * yoe + yoe / 4 - yoe / 100) in
  let mp := (5 * doy + 2) / 153 in
  let d := doy - (153 * mp + 2) / 5 + 1 in
  let m := if mp <? 10 then mp + 3 else mp - 9 in
  let y := yoe + era * 400 + (if m <=? 2 then 1 else 0) in
  (y, m, d).

Definition year_string (y : Z) : string :=
  if (0 <=? y) && (y <=? 9999) then pad 4 y
  else if y <? 0 then "-" ++ pad 6 (- y)
  else "+" ++ pad 6 y.

Definition toISOString (t : Date) : string :=
  let days := t / 86400000 in
  let ms := t mod 86400000 in
  let '(y, m, d) := civil_from_days days in
  year_string y ++ "-" ++ pad 2 m ++ "-" ++ pad 2 d ++ "T"
    ++ pad 2 (ms / 3600000) ++ ":" ++ pad 2 (ms / 60000 mod 60) ++ ":"
    ++ pad 2 (ms / 1000 mod 60) ++ "." ++ pad 3 (ms mod 1000) ++ "Z".

(* ===================================================================== *)
(** ** types.ts : log entries *)
(* ===================================================================== *)

(** A JavaScript [Error] object, as far as the library reads it. *)
Module JsError.
Record t : Type := mk {
  name : string;
  message : string;
  stack : option string
}.
End JsError.

(** [interface LogEntry]; an optional field that is not set is [None]. *)
Module LogEntry.
Record t : Type := mk {
  level : LogLevel;
  message : string;
  context : option string;
  timestamp : Date;
  data : option (list (string * JsValue));
  error : option JsError.t
}.
End LogEntry.

(** [interface LogOptions] *)
Module LogOptions.
Record t : Type := mk {
  context : option string;
  data : option (list (string * JsValue));
  error : option JsError.t
}.
End LogOptions.

(* ===================================================================== *)
(** ** formatters.ts *)
(* ===================================================================== *)

Definition newline : string := String (ascii_of_N 10) EmptyString.

(** Truthiness of an optional string: set and not empty. *)
Definition truthy (s : option string) : bool :=
  match s with
  | Some (String _ _) => true
  | _ => false
  end.

(** The part of the two text formatters after the message: the data
    suffix and the error suffix. *)
Definition append_data (entry : LogEntry.t) (msg : string) : string :=
  match LogEntry.data entry with
  | Some d =>
      if (0 <? Object_keys_length d)%nat
      then msg ++ " " ++ JSON_serialize (JObject d)
      else msg
  | None => msg
  end.

Definition append_error (entry : LogEntry.t) (msg : string) : string :=
  match LogEntry.error entry with
  | Some e =>
      msg ++ newline ++ match JsError.stack e with
                        | Some st => st
                        | None => JsError.message e
                        end
  | None => msg
  end.

(** [SimpleFormatter.format] *)
Definition SimpleFormatter_format (entry : LogEntry.t) : string :=
  let level := LOG_LEVEL_NAMES (LogEntry.level entry) in
  let ctx := if truthy (LogEntry.context entry)
             then "[" ++ default EmptyString (LogEntry.context entry) ++ "] "
             else EmptyString in
  let msg := "[" ++ level ++ "] " ++ ctx ++ LogEntry.message entry in
  let msg := append_data entry msg in
  let msg := append_error entry msg in
  msg.

(** [TimestampedFormatter.format] *)
Definition TimestampedFormatter_format (entry : LogEntry.t) : string :=
  let level := LOG_LEVEL_NAMES (LogEntry.level entry) in
  let time := toISOString (LogEntry.timestamp entry) in
  let ctx := if truthy (LogEntry.context entry)
             then "[" ++ default EmptyString (LogEntry.context entry) ++ "] "
             else EmptyString in
  let msg := "[" ++ time ++ "] [" ++ level ++ "] " ++ ctx ++ LogEntry.message entry in
  let msg := append_data entry msg in
  let msg := append_error entry msg in
  msg.

(** The object [JsonFormatter.format] builds before it is serialized. *)
Definition JsonFormatter_obj (entry : LogEntry.t) : list (string * JsValue) :=
  let obj := [ ("level", JString (LOG_LEVEL_NAMES (LogEntry.level entry)));
               ("message", JString (LogEntry.message entry));
               ("timestamp", JString (toISOString (LogEntry.timestamp entry))) ] in
  let obj := if truthy (LogEntry.context entry)
             then (obj ++ [("context", JString (default EmptyString (LogEntry.context entry)))])%list
             else obj in
  let obj := match LogEntry.data entry with
             | Some d => (obj ++ [("data", JObject d)])%list
             | None => obj
             end in
  let obj := match LogEntry.error entry with
             | Some e =>
                 (obj ++ [("error",
                          JObject [ ("name", JString (JsError.name e));
                                    ("message", JString (JsError.message e));
                                    ("stack", match JsError.stack e with
                                              | Some st => JString st
                                              | None => JUndefined
                                              end) ])])%list
             | None => obj
             end in
  obj.

(** [JsonFormatter.format] *)
Definition JsonFormatter_format (entry : LogEntry.t) : string :=
  JSON_serialize (JObject (JsonFormatter_obj entry)).

(** [interface Formatter]: the three built-in classes and any other
    object with a [format] method. *)
Inductive Formatter : Type :=
  | SimpleFormatter
  | TimestampedFormatter
  | JsonFormatter
  | CustomFormatter (format : LogEntry.t -> string).

Definition format (f : Formatter) (entry : LogEntry.t) : string :=
  match f with
  | SimpleFormatter => SimpleFormatter_format entry
  | TimestampedFormatter => TimestampedFormatter_format entry
  | JsonFormatter => JsonFormatter_format entry
  | CustomFormatter fmt => fmt entry
  end.

(* ===================================================================== *)
(** ** The store *)
(* ===================================================================== *)

(** An object reference is a number. *)
Abbreviation ref := nat (only parsing).

(** [class Logger]: the fields of an instance.  [transports] is a
    reference to the [Transport[]] array, which several loggers may share. *)
Module Logger.
Record t : Type := mk {
  level : LogLevel;
  context : option string;
  transports : ref;
  formatter : Formatter
}.
End Logger.

(** [interface Transport]: the objects of the three built-in classes and
    any other object with a [name] and a [write] method.  Functions
    supplied by the user (a callback, the [write] method of a custom
    transport) are named by an index into the user's code. *)
Inductive Transport : Type :=
  | ConsoleTransport (formatter : Formatter)
  | MemoryTransport (entries : list LogEntry.t)
  | CallbackTransport (callback : option nat) (formatter : Formatter)
  | CustomTransport (name : string) (write : nat).

(** The methods of [globalThis.console] the console transport calls. *)
Inductive Channel : Type :=
  | console_error | console_warn | console_info | console_debug.

Record World : Type := mkWorld {
  loggers : gmap ref Logger.t;        (** the [Logger] instances *)
  arrays : gmap ref (list ref);       (** the [Transport[]] arrays *)
  transports : gmap ref Transport;    (** the transport objects *)
  console : list (Channel * string);  (** what was written to the console *)
  now : Date                          (** the clock [new Date()] reads *)
}.

Definition set_loggers (f : gmap ref Logger.t -> gmap ref Logger.t) (w : World) : World :=
  mkWorld (f (loggers w)) (arrays w) (transports w) (console w) (now w).

Definition set_arrays (f : gmap ref (list ref) -> gmap ref (list ref)) (w : World) : World :=
  mkWorld (loggers w) (f (arrays w)) (transports w) (console w) (now w).

Definition set_transports (f : gmap ref Transport -> gmap ref Transport) (w : World) : World :=
  mkWorld (loggers w) (arrays w) (f (transports w)) (console w) (now w).

Definition set_console (f : list (Channel * string) -> list (Channel * string)) (w : World) : World :=
  mkWorld (loggers w) (arrays w) (transports w) (f (console w)) (now w).

(** How a call ends: it returns a value, it throws, or the model gives
    up: the bound on loop iterations is used up ([OutOfFuel]), or a
    reference names no object ([Invalid], which no running program
    reaches). *)
Inductive Completion (A : Type) : Type :=
  | Normal (a : A) (w : World)
  | Throw (e : JsError.t) (w : World)
  | OutOfFuel
  | Invalid.
Arguments Normal {A} a w.
Arguments Throw {A} e w.
Arguments OutOfFuel {A}.
Arguments Invalid {A}.

(** The functions the application supplies. *)
Record UserCode : Type := mkUserCode {
  write_fn : nat -> LogEntry.t -> World -> Completion unit;
  callback_fn : nat -> LogEntry.t -> string -> World -> Completion unit
}.

(** The error of calling a value that is not a function. *)
Definition TypeError_not_a_function : JsError.t :=
  JsError.mk "TypeError" "this.callback is not a function" None.

(* ===================================================================== *)
(** ** transports.ts *)
(* ===================================================================== *)

(** [readonly name] of the built-in classes, [name] of any other. *)
Definition Transport_name (t : Transport) : string :=
  match t with
  | ConsoleTransport _ => "console"
  | MemoryTransport _ => "memory"
  | CallbackTransport _ _ => "callback"
  | CustomTransport name _ => name
  end.

(** The [switch (entry.level)] of [ConsoleTransport.write]. *)
Definition console_channel (l : LogLevel) : Channel :=
  match l with
  | ERROR => console_error
  | WARN => console_warn
  | INFO => console_info
  | DEBUG | TRACE => console_debug
  end.

(** [transport.write(entry)] for the transport object at [t]. *)
Definition write (code : UserCode) (t : ref) (entry : LogEntry.t) (w : World)
  : Completion unit :=
  match transports w !! t with
  | None => Invalid
  | Some (ConsoleTransport f) =>
      let message := format f entry in
      Normal tt (set_console
                   (fun out => (out ++ [(console_channel (LogEntry.level entry), message)])%list) w)
  | Some (MemoryTransport entries) =>
      Normal tt (set_transports <[t := MemoryTransport (entries ++ [entry])%list]> w)
  | Some (CallbackTransport callback f) =>
      let formatted := format f entry in
      match callback with
      | Some k => callback_fn code k entry formatted w
      | None => Throw TypeError_not_a_function w
      end
  | Some (CustomTransport _ k) => write_fn code k entry w
  end.

(** [MemoryTransport.clear] and [MemoryTransport.getEntries] *)
Definition clear (t : ref) (w : World) : Completion unit :=
  match transports w !! t with
  | Some (MemoryTransport _) => Normal tt (set_transports <[t := MemoryTransport []]> w)
  | _ => Invalid
  end.

Definition getEntries (t : ref) (level : option LogLevel) (w : World)
  : Completion (list LogEntry.t) :=
  match transports w !! t with
  | Some (MemoryTransport entries) =>
      match level with
      | None => Normal entries w
      | Some l => Normal (filter (fun e => LogLevel_eqb (LogEntry.level e) l = true) entries) w
      end
  | _ => Invalid
  end.

(** [interface CallbackTransportOptions]; a [callback] that is missing at
    run time is [None]. *)
Module CallbackTransportOptions.
Record t : Type := mk {
  callback : option nat;
  formatter : option Formatter
}.
End CallbackTransportOptions.

(** [new CallbackTransport(options)], the reference to the new object. *)
Definition new_CallbackTransport (options : CallbackTransportOptions.t) (w : World)
  : Completion ref :=
  let this := fresh (dom (transports w)) in
  let callback := CallbackTransportOptions.callback options in
  let formatter := default SimpleFormatter (CallbackTransportOptions.formatter options) in
  Normal this (set_transports <[this := CallbackTransport callback formatter]> w).

(** [new ConsoleTransport(options)] and [new MemoryTransport()] *)
Definition new_ConsoleTransport (formatter : option Formatter) (w : World) : Completion ref :=
  let this := fresh (dom (transports w)) in
  Normal this (set_transports <[this := ConsoleTransport (default SimpleFormatter formatter)]> w).

Definition new_MemoryTransport (w : World) : Completion ref :=
  let this := fresh (dom (transports w)) in
  Normal this (set_transports <[this := MemoryTransport []]> w).

(* ===================================================================== *)
(** ** logger.ts *)
(* ===================================================================== *)

(** Sequencing of calls: a call that does not return a value ends the
    whole computation the same way. *)
Definition bind {A B : Type} (c : Completion A) (k : A -> World -> Completion B)
  : Completion B :=
  match c with
  | Normal a w => k a w
  | Throw e w => Throw e w
  | OutOfFuel => OutOfFuel
  | Invalid => Invalid
  end.

Notation "'call' ( x , w ) <- c ; k" := (bind c (fun x w => k))
  (at level 10, x name, w name, c at level 100, k at level 200).

(** Reading [this] and [this.transports]. *)
Definition get_logger (this : ref) (w : World) : Completion Logger.t :=
  match loggers w !! this with
  | Some L => Normal L w
  | None => Invalid
  end.

Definition get_array (a : ref) (w : World) : Completion (list ref) :=
  match arrays w !! a with
  | Some l => Normal l w
  | None => Invalid
  end.

(** [interface LoggerOptions] *)
Module LoggerOptions.
Record t : Type := mk {
  level : option LogLevel;
  context : option string;
  transports : option ref;
  formatter : option Formatter
}.
End LoggerOptions.

(** [new Logger(options)]; [options] defaults to [{}]. *)
Definition new_Logger (options : option LoggerOptions.t) (w : World) : Completion ref :=
  let options := default (LoggerOptions.mk None None None None) options in
  let level := default INFO (LoggerOptions.level options) in
  let context := LoggerOptions.context options in
  call (transports, w) <-
    match LoggerOptions.transports options with
    | Some a => Normal a w
    | None =>
        call (t, w) <- new_ConsoleTransport None w;
        let a := fresh (dom (arrays w)) in
        Normal a (set_arrays <[a := [t]]> w)
    end;
  let formatter := default SimpleFormatter (LoggerOptions.formatter options) in
  let this := fresh (dom (loggers w)) in
  Normal this (set_loggers <[this := Logger.mk level context transports formatter]> w).

(** [createLogger(options)] *)
Definition createLogger (options : option LoggerOptions.t) (w : World) : Completion ref :=
  new_Logger options w.

(** What one call of [log] did: the entry it constructed, if any, the
    calls [transport.write(entry)] it made, in order, and how it ended. *)
Record LogResult : Type := mkLogResult {
  entry_built : option LogEntry.t;
  writes : list (ref * LogEntry.t);
  outcome : Completion unit
}.

(** [for (const transport of this.transports) transport.write(entry)].
    The array iterator keeps the array and an index: every step reads the
    array as it is then, stops when the index is past its end, and
    otherwise takes the element at the index.  [fuel] bounds the number of
    steps. *)
Fixpoint dispatch (code : UserCode) (fuel : nat) (arr : ref) (i : nat)
    (entry : LogEntry.t) (w : World) : list (ref * LogEntry.t) * Completion unit :=
  match fuel with
  | O => ([], OutOfFuel)
  | S fuel' =>
      match arrays w !! arr with
      | None => ([], Invalid)
      | Some a =>
          match a !! i with
          | None => ([], Normal tt w)
          | Some transport =>
              match write code transport entry w with
              | Normal _ w' =>
                  let (calls, out) := dispatch code fuel' arr (S i) entry w' in
                  ((transport, entry) :: calls, out)
              | out => ([(transport, entry)], out)
              end
          end
      end
  end.

(** The entry [log] constructs. *)
Definition make_entry (L : Logger.t) (level : LogLevel) (message : string)
    (options : option LogOptions.t) (timestamp : Date) : LogEntry.t :=
  let ctx := match options ≫= LogOptions.context with
             | Some c => Some c
             | None => Logger.context L
             end in
  LogEntry.mk level message ctx timestamp
              (options ≫= LogOptions.data) (options ≫= LogOptions.error).

(** [Logger.log(level, message, options?)] *)
Definition log (code : UserCode) (fuel : nat) (this : ref) (level : LogLevel)
    (message : string) (options : option LogOptions.t) (w : World) : LogResult :=
  match loggers w !! this with
  | None => mkLogResult None [] Invalid
  | Some L =>
      if LogLevel_value level >? LogLevel_value (Logger.level L)
      then mkLogResult None [] (Normal tt w)
      else
        let entry := make_entry L level message options (now w) in
        let (calls, out) := dispatch code fuel (Logger.transports L) 0 entry w in
        mkLogResult (Some entry) calls out
  end.

(** The fixed-level wrappers. *)
Definition warn code fuel this message options w := log code fuel this WARN message options w.
Definition info code fuel this message options w := log code fuel this INFO message options w.
Definition debug code fuel this message options w := log code fuel this DEBUG message options w.
Definition trace code fuel this message options w := log code fuel this TRACE message options w.

(** [Logger.child(context)] *)
Definition child (this : ref) (context : string) (w : World) : Completion ref :=
  call (L, w) <- get_logger this w;
  new_Logger
    (Some (LoggerOptions.mk
             (Some (Logger.level L))
             (Some (if truthy (Logger.context L)
                    then default EmptyString (Logger.context L) ++ ":" ++ context
                    else context))
             (Some (Logger.transports L))
             (Some (Logger.formatter L)))) w.

(** [Logger.setLevel] and [Logger.getLevel] *)
Definition setLevel (this : ref) (level : LogLevel) (w : World) : Completion unit :=
  call (L, w) <- get_logger this w;
  Normal tt (set_loggers
               <[this := Logger.mk level (Logger.context L) (Logger.transports L)
                                   (Logger.formatter L)]> w).

Definition getLevel (this : ref) (w : World) : Completion LogLevel :=
  call (L, w) <- get_logger this w;
  Normal (Logger.level L) w.

(** [Logger.addTransport]: [this.transports.push(transport)] *)
Definition addTransport (this : ref) (transport : ref) (w : World) : Completion unit :=
  call (L, w) <- get_logger this w;
  call (a, w) <- get_array (Logger.transports L) w;
  Normal tt (set_arrays <[Logger.transports L := (a ++ [transport])%list]> w).

(** [Array.prototype.findIndex]; [None] is the [-1] of no match. *)
Fixpoint findIndex {A} (p : A -> bool) (l : list A) : option nat :=
  match l with
  | [] => None
  | x :: l' => if p x then Some O else option_map S (findIndex p l')
  end.

(** [array.splice(index, 1)] for an index inside the array. *)
Definition splice1 {A} (index : nat) (l : list A) : list A :=
  (take index l ++ drop (S index) l)%list.

(** The test [(t) => t.name === name] of [removeTransport]. *)
Definition has_name (w : World) (name : string) (t : ref) : bool :=
  match transports w !! t with
  | Some obj => String.eqb (Transport_name obj) name
  | None => false
  end.

(** [Logger.removeTransport(name)] *)
Definition removeTransport (this : ref) (name : string) (w : World) : Completion bool :=
  call (L, w) <- get_logger this w;
  call (a, w) <- get_array (Logger.transports L) w;
  match findIndex (has_name w name) a with
  | Some index =>
      Normal true (set_arrays <[Logger.transports L := splice1 index a]> w)
  | None => Normal false w
  end.

(* ===================================================================== *)
(** ** Vocabulary of the statements *)
(* ===================================================================== *)

(** [entry] with its [context] or [data] field replaced. *)
Definition with_context (c : option string) (e : LogEntry.t) : LogEntry.t :=
  LogEntry.mk (LogEntry.level e) (LogEntry.message e) c (LogEntry.timestamp e)
              (LogEntry.data e) (LogEntry.error e).

Definition with_data (d : option (list (string * JsValue))) (e : LogEntry.t) : LogEntry.t :=
  LogEntry.mk (LogEntry.level e) (LogEntry.message e) (LogEntry.context e)
              (LogEntry.timestamp e) d (LogEntry.error e).

(** The transports of [seg] are steady for [entry] with respect to a
    property [Inv] of the store: in a store with the property, their
    [write] returns normally and re-establishes the property. *)
Definition steady (code : UserCode) (Inv : World -> Prop) (entry : LogEntry.t)
    (seg : list ref) : Prop :=
  forall t w, t ∈ seg -> Inv w ->
    exists w', write code t entry w = Normal tt w' /\ Inv w'.

(** The calls that write [entry] to each transport of [l], in order. *)
Definition writes_to (entry : LogEntry.t) (l : list ref) : list (ref * LogEntry.t) :=
  map (fun t => (t, entry)) l.

(** A name made of ASCII capital letters. *)
Definition all_upper (name : JsString) : bool := forallb is_upper_unit name.

(** Writing [entry] to each transport of [l] in turn, as far as the
    writes return: the store goes from one [write] to the next. *)
Fixpoint write_each (code : UserCode) (entry : LogEntry.t) (l : list ref) (w : World)
  : Completion unit :=
  match l with
  | [] => Normal tt w
  | t :: l' => call (_, w1) <- write code t entry w; write_each code entry l' w1
  end.
(* ===================================================================== *)
(** ** Concrete scenarios *)
(* ===================================================================== *)

(** The sample entry of the formatter tests. *)
Definition baseEntry : LogEntry.t :=
  LogEntry.mk INFO "Test message" None 1705314600000 None None.

(** User code of the scenarios.  Write function 0 throws; write function 1
    adds the transport object 1 to the logger 0; write function 2 removes
    the transport named [memory] from the logger 0.  Callbacks return. *)
Definition boom : JsError.t := JsError.mk "Error" "sink unavailable" None.

Definition scenario_code : UserCode :=
  mkUserCode
    (fun k entry w =>
       match k with
       | 0%nat => Throw boom w
       | 1%nat => addTransport 0%nat 1%nat w
       | 2%nat => call (_, w) <- removeTransport 0%nat "memory" w; Normal tt w
       | _ => Normal tt w
       end)
    (fun k entry formatted w => Normal tt w).

(** A clock reading for the scenarios. *)
Definition t0 : Date := 1705314600000.

(** One logger (reference 0) at level INFO with default context [app],
    whose transport array (reference 0) holds the objects listed in
    [list]; the transport objects are [objs], numbered from 0. *)
Definition scenario (context : option string) (objs : list Transport) (list : list ref)
  : World :=
  mkWorld {[ 0%nat := Logger.mk INFO context 0%nat SimpleFormatter ]}
          {[ 0%nat := list ]}
          (list_to_map (imap (fun i o => (i, o)) objs))
          [] t0.

(** A memory transport alone. *)
Definition world_memory : World := scenario (Some "app") [MemoryTransport []] [0%nat].

(** A transport whose [write] throws, followed by a memory transport. *)
Definition world_failing : World :=
  scenario (Some "app") [CustomTransport "failing" 0%nat; MemoryTransport []] [0%nat; 1%nat].

(** A transport whose [write] registers the memory transport 1, alone in
    the list. *)
Definition world_adder : World :=
  scenario (Some "app") [CustomTransport "adder" 1%nat; MemoryTransport []] [0%nat].

(** A transport whose [write] removes the memory transport, followed by
    that memory transport. *)
Definition world_remover : World :=
  scenario (Some "app") [CustomTransport "remover" 2%nat; MemoryTransport []] [0%nat; 1%nat].

(** A logger whose context is the empty string, and one without context. *)
Definition world_empty_context : World := scenario (Some EmptyString) [MemoryTransport []] [0%nat].
Definition world_no_context : World := scenario None [MemoryTransport []] [0%nat].

(** The store keeps the logger 0 and its list as they are in [world_memory],
    and the transport 0 is a memory transport. *)
Definition memory_inv (w : World) : Prop :=
  loggers w !! 0%nat = loggers world_memory !! 0%nat /\
  arrays w !! 0%nat = Some [0%nat] /\
  exists entries, transports w !! 0%nat = Some (MemoryTransport entries).

(** The entry a call [log(INFO, "started")] builds in the scenarios. *)
Definition started : LogEntry.t := LogEntry.mk INFO "started" (Some "app") t0 None None.


(** The stores of the adder scenario before the adder has run, and after. *)
Definition adder_inv (list : list ref) (w : World) : Prop :=
  loggers w !! 0%nat = loggers world_adder !! 0%nat /\
  arrays w !! 0%nat = Some list /\
  transports w !! 0%nat = Some (CustomTransport "adder" 1%nat) /\
  exists entries, transports w !! 1%nat = Some (MemoryTransport entries).

(** Two memory transports around a console transport, all in the list. *)
Definition world_three : World :=
  scenario (Some "app")
           [MemoryTransport []; ConsoleTransport SimpleFormatter; MemoryTransport []]
           [0%nat; 1%nat; 2%nat].

(** The scenario of the test suite: four calls at the levels ERROR, WARN,
    INFO and DEBUG on the logger of [world_memory], then the level and
    message of the entries the memory transport holds. *)
Definition four_calls : option (list (LogLevel * string)) :=
  match
    (call (_, w) <- outcome (log scenario_code 2 0%nat ERROR "e" None world_memory);
     call (_, w) <- outcome (warn scenario_code 2 0%nat "w" None w);
     call (_, w) <- outcome (info scenario_code 2 0%nat "i" None w);
     call (_, w) <- outcome (debug scenario_code 2 0%nat "d" None w);
     getEntries 0%nat None w)
  with
  | Normal entries _ => Some (map (fun e => (LogEntry.level e, LogEntry.message e)) entries)
  | _ => None
  end.

(** The stores of [world_three]: the list in place, memory transports at
    0 and 2, the console transport at 1. *)
Definition three_inv (w : World) : Prop :=
  arrays w !! 0%nat = Some [0%nat; 1%nat; 2%nat] /\
  (exists entries, transports w !! 0%nat = Some (MemoryTransport entries)) /\
  transports w !! 1%nat = Some (ConsoleTransport SimpleFormatter) /\
  (exists entries, transports w !! 2%nat = Some (MemoryTransport entries)).

(** The entry of a call [log(WARN, "disk almost full")] in the scenarios. *)
Definition almost_full : LogEntry.t :=
  LogEntry.mk WARN "disk almost full" (Some "app") t0 None None.

(* ===================================================================== *)
(** ** logger.ts : the remaining methods and the default logger *)
(* ===================================================================== *)

(** [Logger.error(message, options?)] *)
Definition error code fuel this message options w := log code fuel this ERROR message options w.

(** [Logger.errorWithException(message, error, options?)]: the options
    object of the call is [{ ...options, error }]. *)
Definition errorWithException (code : UserCode) (fuel : nat) (this : ref)
    (message : string) (err : JsError.t) (options : option LogOptions.t) (w : World)
  : LogResult :=
  log code fuel this ERROR message
      (Some (LogOptions.mk (options ≫= LogOptions.context)
                           (options ≫= LogOptions.data)
                           (Some err))) w.

(** The module variable [defaultLogger] ([None] is [null]) is passed in
    and its new value is returned beside the result. *)
Definition getDefaultLogger (defaultLogger : option ref) (w : World)
  : Completion (ref * option ref) :=
  match defaultLogger with
  | Some l => Normal (l, Some l) w
  | None =>
      call (l, w) <- new_Logger None w;
      Normal (l, Some l) w
  end.

Definition setDefaultLogger (logger : ref) (defaultLogger : option ref) (w : World)
  : Completion (unit * option ref) :=
  Normal (tt, Some logger) w.

Definition resetDefaultLogger (defaultLogger : option ref) (w : World)
  : Completion (unit * option ref) :=
  Normal (tt, None) w.

(** [createConsoleTransport], [createMemoryTransport] and
    [createCallbackTransport] *)
Definition createConsoleTransport (formatter : option Formatter) (w : World) : Completion ref :=
  new_ConsoleTransport formatter w.

Definition createMemoryTransport (w : World) : Completion ref :=
  new_MemoryTransport w.

Definition createCallbackTransport (options : CallbackTransportOptions.t) (w : World)
  : Completion ref :=
  new_CallbackTransport options w.

(** The store a call leaves behind, when it returns or throws. *)
Definition final_world {A} (c : Completion A) : option World :=
  match c with
  | Normal _ w => Some w
  | Throw _ w => Some w
  | _ => None
  end.

(** The entries of a list that have the level [l], as [getEntries] selects
    them. *)
Definition at_level (l : LogLevel) (entries : list LogEntry.t) : list LogEntry.t :=
  filter (fun e => LogLevel_eqb (LogEntry.level e) l = true) entries.

(** All code units of a string are ASCII letters. *)
Definition all_letters (s : JsString) : bool :=
  forallb (fun c => is_upper_unit c || is_lower_unit c) s.


(** The number of transports of a list that have the name [name]. *)
Definition count_named (w : World) (name : string) (a : list ref) : nat :=
  List.length (List.filter (has_name w name) a).

(** User code of the further scenarios: write function 0 registers the
    transport object 0 with the logger 0 again. *)
Definition echo_code : UserCode :=
  mkUserCode (fun k entry w => addTransport 0%nat 0%nat w)
             (fun k entry formatted w => Normal tt w).

(** A transport whose [write] appends itself to the list it is in. *)
Definition world_echo : World :=
  scenario (Some "app") [CustomTransport "echo" 0%nat] [0%nat].

(** A console transport with the JSON formatter, alone in the list. *)
Definition world_console : World :=
  scenario (Some "app") [ConsoleTransport JsonFormatter] [0%nat].

(** Two memory transports in the list and a console transport that is not
    in it. *)
Definition world_spare : World :=
  scenario (Some "app")
           [MemoryTransport []; ConsoleTransport SimpleFormatter; MemoryTransport []]
           [0%nat; 2%nat].

(** The stores of the echo scenario after [i] writes: the list holds the
    echo transport [i + 1] times. *)
Definition echo_inv (i : nat) (w : World) : Prop :=
  loggers w !! 0%nat = Some (Logger.mk INFO (Some "app") 0%nat SimpleFormatter) /\
  transports w !! 0%nat = Some (CustomTransport "echo" 0%nat) /\
  arrays w !! 0%nat = Some (replicate (S i) 0%nat).


(** [sel] is [entries] with the entries of a level other than [l] left
    out: the entries of level [l], each as often and in the order it is
    in [entries]. *)
Inductive selection (l : LogLevel) : list LogEntry.t -> list LogEntry.t -> Prop :=
  | selection_nil : selection l [] []
  | selection_keep (e : LogEntry.t) (entries sel : list LogEntry.t) :
      LogEntry.level e = l -> selection l entries sel ->
      selection l (e :: entries) (e :: sel)
  | selection_skip (e : LogEntry.t) (entries sel : list LogEntry.t) :
      LogEntry.level e <> l -> selection l entries sel ->
      selection l (e :: entries) sel.

(** A memory transport that holds three entries, two of them the same
    ERROR entry. *)
Definition failed : LogEntry.t := LogEntry.mk ERROR "failed" (Some "app") t0 None None.

Definition world_logged : World :=
  scenario (Some "app") [MemoryTransport [failed; started; failed]] [0%nat].

(* ===================================================================== *)
(** * Properties *)
(* ===================================================================== *)

(** ** Evaluation checks against the test suite *)

Example parse_upper :
  map (fun s => parseLogLevel (code_units s)) ["ERROR"; "WARN"; "INFO"; "DEBUG"; "TRACE"]
  = map Some LogLevel_members.
Proof. reflexivity. Qed.

Example parse_mixed :
  map (fun s => parseLogLevel (code_units s)) ["error"; "Warn"; "iNfO"; "debuG"; "TrAcE"]
  = map Some LogLevel_members.
Proof. reflexivity. Qed.

Example parse_invalid :
  map (fun s => parseLogLevel (code_units s)) ["invalid"; "WARNING"; "0"; "2"; " INFO"; "INF"]
  = replicate 6 None.
Proof. reflexivity. Qed.

Example entries_keys :
  map fst Object_entries_LOG_LEVEL_NAMES = ["0"; "1"; "2"; "3"; "4"].
Proof. reflexivity. Qed.

Example upper_sharp_s : toUpperCase [0xDF%N; 116%N] = code_units "SST".
Proof. reflexivity. Qed.

Example iso_epoch : toISOString 1705314600000 = "2024-01-15T10:30:00.000Z".
Proof. reflexivity. Qed.

Example simple_basic : SimpleFormatter_format baseEntry = "[INFO] Test message".
Proof. reflexivity. Qed.

Example simple_context :
  SimpleFormatter_format (with_context (Some "TestModule") baseEntry)
  = "[INFO] [TestModule] Test message".
Proof. reflexivity. Qed.

Example simple_empty_data :
  SimpleFormatter_format (with_data (Some []) baseEntry) = "[INFO] Test message".
Proof. reflexivity. Qed.

Example timestamped_basic :
  TimestampedFormatter_format baseEntry = "[2024-01-15T10:30:00.000Z] [INFO] Test message".
Proof. reflexivity. Qed.

Example json_fields :
  map fst (JsonFormatter_obj (with_data (Some [("userId", JNumber 123)]) baseEntry))
  = ["level"; "message"; "timestamp"; "data"].
Proof. reflexivity. Qed.

Example four_calls_entries :
  four_calls = Some [(ERROR, "e"); (WARN, "w"); (INFO, "i")].
Proof. reflexivity. Qed.

(** ** Level names and parsing *)

Lemma units_eqb_eq (s t : list N) : units_eqb s t = true <-> s = t.
Proof.
  revert t. induction s as [|c s IH]; intros [|d t]; simpl; split; try discriminate; auto.
  - intros H. apply andb_true_iff in H as [Hc H]. apply N.eqb_eq in Hc.
    apply IH in H. congruence.
  - intros [= -> ->]. rewrite N.eqb_refl. apply IH. reflexivity.
Qed.

(** A code unit that is not a small ASCII letter and not one of the
    listed characters is kept. *)
Lemma upper_code_unit_kept (c : N) :
  is_lower_unit c = false -> (c < 0xDF)%N -> upper_code_unit c = [c].
Proof.
  intros Hl Hc. unfold upper_code_unit. rewrite Hl.
  repeat match goal with
         | |- context [(c =? ?k)%N] => destruct (N.eqb_spec c k); [lia|]
         end.
  reflexivity.
Qed.

(** The upper-case form of an ASCII character. *)
Lemma upper_code_unit_ascii (c : N) :
  (c < 128)%N ->
  upper_code_unit c = [if is_lower_unit c then (c - 32)%N else c].
Proof.
  intros Hc. destruct (is_lower_unit c) eqn:Hl.
  - unfold upper_code_unit. rewrite Hl. reflexivity.
  - apply upper_code_unit_kept; [exact Hl|lia].
Qed.


(** For a string of ASCII characters the comparison of the upper-cased
    string with a name of capital letters is the case test. *)
Lemma toUpperCase_matches (name : list N) :
  all_upper name = true ->
  forall s, is_ascii s = true -> units_eqb name (toUpperCase s) = case_variant s name.
Proof.
  induction name as [|d name IH]; intros Hup [|c s] Hs; simpl in *; try reflexivity.
  - apply andb_true_iff in Hs as [Hc _]. apply N.ltb_lt in Hc.
    rewrite (upper_code_unit_ascii c Hc). reflexivity.
  - apply andb_true_iff in Hup as [Hd Hup]. apply andb_true_iff in Hs as [Hc Hs].
    apply N.ltb_lt in Hc. rewrite (upper_code_unit_ascii c Hc). simpl.
    rewrite (IH Hup s Hs). f_equal.
    unfold lower_unit. rewrite Hd. unfold is_upper_unit in Hd.
    apply andb_true_iff in Hd as [Hd1 Hd2]. apply N.leb_le in Hd1, Hd2.
    unfold is_lower_unit.
    destruct (N.leb_spec 97 c), (N.leb_spec c 122); simpl;
      destruct (N.eqb_spec c d), (N.eqb_spec c (d + 32)); simpl;
      try (apply N.eqb_eq; lia); try (apply N.eqb_neq; lia).
Qed.

Lemma names_all_upper (l : LogLevel) : all_upper (code_units (LOG_LEVEL_NAMES l)) = true.
Proof. destruct l; reflexivity. Qed.

(** [parseLogLevel] written as the search it performs, one name after the
    other. *)
Lemma parseLogLevel_search (s : list N) :
  parseLogLevel s =
    if units_eqb (code_units "ERROR") (toUpperCase s) then Some ERROR
    else if units_eqb (code_units "WARN") (toUpperCase s) then Some WARN
    else if units_eqb (code_units "INFO") (toUpperCase s) then Some INFO
    else if units_eqb (code_units "DEBUG") (toUpperCase s) then Some DEBUG
    else if units_eqb (code_units "TRACE") (toUpperCase s) then Some TRACE
    else None.
Proof.
  unfold parseLogLevel. cbn [Object_entries_LOG_LEVEL_NAMES LogLevel_members map Array_find snd].
  cbn [LOG_LEVEL_NAMES].
  repeat (match goal with |- context [units_eqb (code_units ?n) (toUpperCase s)] =>
            destruct (units_eqb (code_units n) (toUpperCase s)); [reflexivity|] end).
  reflexivity.
Qed.

(** [parseLogLevel] returns the level whose name the upper-cased input is. *)
Lemma parseLogLevel_by_upper (s : list N) (l : LogLevel) :
  parseLogLevel s = Some l <-> toUpperCase s = code_units (LOG_LEVEL_NAMES l).
Proof.
  rewrite parseLogLevel_search. split.
  - repeat match goal with
           | |- context [units_eqb ?n (toUpperCase s)] =>
               let E := fresh "E" in
               destruct (units_eqb n (toUpperCase s)) eqn:E;
               [apply units_eqb_eq in E; intros [= <-]; symmetry; exact E|]
           end.
    discriminate.
  - intros H. rewrite H.
    destruct l; reflexivity.
Qed.

Lemma case_variant_length (s name : list N) :
  case_variant s name = true -> List.length s = List.length name.
Proof.
  revert name. induction s as [|c s IH]; intros [|d name]; simpl; try discriminate; auto.
  intros H. apply andb_true_iff in H as [_ H]. f_equal. auto.
Qed.




(** ** Formatters *)

(** The text of an object is its members between braces. *)
Lemma JSON_serialize_object (props : list (string * JsValue)) :
  JSON_serialize (JObject props) = "{" ++ join "," (JSON_members props) ++ "}".
Proof.
  destruct props; reflexivity.
Qed.

Lemma JSON_members_app (p q : list (string * JsValue)) :
  JSON_members (p ++ q) = (JSON_members p ++ JSON_members q)%list.
Proof.
  induction p as [|[k x] p IH]; [reflexivity|].
  cbn [app JSON_members]. destruct (is_undefined x); rewrite IH; reflexivity.
Qed.

(** C8. For an entry whose [data] is present but empty, [SimpleFormatter]
    and [TimestampedFormatter] give the output they give when [data] is
    absent (no data suffix), while the object [JsonFormatter] serializes
    has a [data] key holding the empty object, which its output shows as
    the member [data] with the text of the empty object. *)
Theorem empty_data_formatting (e : LogEntry.t) :
  SimpleFormatter_format (with_data (Some []) e)
    = SimpleFormatter_format (with_data None e) /\
  TimestampedFormatter_format (with_data (Some []) e)
    = TimestampedFormatter_format (with_data None e) /\
  get_property "data" (JsonFormatter_obj (with_data (Some []) e)) = Some (JObject []) /\
  get_property "data" (JsonFormatter_obj (with_data None e)) = None /\
  JSON_stringify (JObject []) = Some "{}" /\
  JsonFormatter_format (with_data (Some []) e)
    = "{" ++ join "," (JSON_members (JsonFormatter_obj (with_data (Some []) e))) ++ "}" /\
  In (quote "data" ++ ":{}") (JSON_members (JsonFormatter_obj (with_data (Some []) e))).
Proof.
  split; [reflexivity|]. split; [reflexivity|].
  split; [|split; [|split; [reflexivity|split; [apply JSON_serialize_object|]]]].
  - unfold JsonFormatter_obj. cbn [with_data LogEntry.data LogEntry.context LogEntry.error].
    destruct (truthy (LogEntry.context e)), (LogEntry.error e); reflexivity.
  - unfold JsonFormatter_obj. cbn [with_data LogEntry.data LogEntry.context LogEntry.error].
    destruct (truthy (LogEntry.context e)), (LogEntry.error e); reflexivity.
  - unfold JsonFormatter_obj. cbn [with_data LogEntry.data LogEntry.context LogEntry.error].
    destruct (truthy (LogEntry.context e)), (LogEntry.error e);
      rewrite ?JSON_members_app; rewrite ?in_app_iff;
      cbn [JSON_members is_undefined In]; tauto.
Qed.

(** An entry whose context is the empty string is rendered as one without
    context, by the three formatters. *)
Lemma empty_context_formatting (e : LogEntry.t) :
  SimpleFormatter_format (with_context (Some EmptyString) e)
    = SimpleFormatter_format (with_context None e) /\
  TimestampedFormatter_format (with_context (Some EmptyString) e)
    = TimestampedFormatter_format (with_context None e) /\
  JsonFormatter_obj (with_context (Some EmptyString) e)
    = JsonFormatter_obj (with_context None e) /\
  get_property "context" (JsonFormatter_obj (with_context (Some EmptyString) e)) = None.
Proof.
  repeat split.
  unfold JsonFormatter_obj. cbn [with_context LogEntry.data LogEntry.context LogEntry.error truthy].
  destruct (LogEntry.data e), (LogEntry.error e); reflexivity.
Qed.

(** ** Dispatch *)

Section Dispatch.
Variables (code : UserCode) (arr : ref) (entry : LogEntry.t).

(** One step of the loop, by what the iterator finds at its index. *)
Lemma dispatch_step (fuel i : nat) (a : list ref) (t : ref) (w w1 : World) :
  arrays w !! arr = Some a -> a !! i = Some t ->
  write code t entry w = Normal tt w1 ->
  dispatch code (S fuel) arr i entry w =
    let rest := dispatch code fuel arr (S i) entry w1 in
    ((t, entry) :: rest.1, rest.2).
Proof.
  intros Ha Hi Hw. cbn [dispatch]. rewrite Ha, Hi, Hw.
  destruct (dispatch code fuel arr (S i) entry w1); reflexivity.
Qed.


(** At the end of the list dispatch returns. *)
Lemma dispatch_end (fuel i : nat) (a : list ref) (w : World) :
  arrays w !! arr = Some a -> (List.length a <= i)%nat ->
  dispatch code (S fuel) arr i entry w = ([], Normal tt w).
Proof.
  intros Ha Hi. cbn [dispatch]. rewrite Ha, lookup_ge_None_2; [reflexivity|lia].
Qed.

(** Over a stretch [seg] of steady transports, dispatch writes to each of
    them in order and goes on at the index after the stretch. *)
Lemma dispatch_steady_run (Inv : World -> Prop) (seg : list ref) :
  forall (pre post : list ref) (fuel : nat) (w : World),
    (forall w, Inv w -> arrays w !! arr = Some (pre ++ seg ++ post)%list) ->
    steady code Inv entry seg ->
    Inv w ->
    exists w', Inv w' /\
      dispatch code (List.length seg + fuel) arr (List.length pre) entry w =
        let rest := dispatch code fuel arr (List.length pre + List.length seg) entry w' in
        ((writes_to entry seg ++ rest.1)%list, rest.2).
Proof.
  induction seg as [|t seg IH]; intros pre post fuel w Harr Hst Hinv.
  - exists w. split; [exact Hinv|]. cbn [List.length writes_to map Nat.add app].
    rewrite Nat.add_0_r.
    destruct (dispatch code fuel arr (List.length pre) entry w); reflexivity.
  - destruct (Hst t w) as (w1 & Hw & Hinv1); [left|exact Hinv|].
    destruct (IH (pre ++ [t])%list post fuel w1) as (w' & Hinv' & Hrun).
    + intros w2 H2. rewrite (Harr w2 H2). f_equal. rewrite <- app_assoc. reflexivity.
    + intros u w2 Hu. apply Hst. right. exact Hu.
    + exact Hinv1.
    + exists w'. split; [exact Hinv'|].
      rewrite length_app in Hrun. cbn [List.length] in Hrun.
      replace (List.length pre + 1)%nat with (S (List.length pre)) in Hrun by lia.
      cbn [List.length Nat.add].
      rewrite (dispatch_step _ _ _ t w w1 (Harr w Hinv)); [|
        apply list_lookup_middle; reflexivity | exact Hw].
      rewrite Hrun.
      replace (S (List.length pre) + List.length seg)%nat
        with (List.length pre + S (List.length seg))%nat by lia.
      reflexivity.
Qed.

(** Writing to the transports of two lists one after the other. *)
Lemma write_each_app (l1 l2 : list ref) (w : World) :
  write_each code entry (l1 ++ l2) w
  = (call (_, w1) <- write_each code entry l1 w; write_each code entry l2 w1).
Proof.
  revert w. induction l1 as [|t l1 IH]; intros w; [reflexivity|].
  cbn [app write_each]. destruct (write code t entry w) as [[] w1|x w1| |]; cbn [bind];
    [apply IH|reflexivity|reflexivity|reflexivity].
Qed.

(** Over a stretch of steady transports dispatch does to the store what
    the writes do one after the other. *)
Lemma dispatch_steady_effect (Inv : World -> Prop) (seg : list ref) :
  forall (pre post : list ref) (fuel : nat) (w : World),
    (forall w, Inv w -> arrays w !! arr = Some (pre ++ seg ++ post)%list) ->
    steady code Inv entry seg ->
    Inv w ->
    exists w', Inv w' /\
      write_each code entry seg w = Normal tt w' /\
      dispatch code (List.length seg + fuel) arr (List.length pre) entry w =
        let rest := dispatch code fuel arr (List.length pre + List.length seg) entry w' in
        ((writes_to entry seg ++ rest.1)%list, rest.2).
Proof.
  induction seg as [|t seg IH]; intros pre post fuel w Harr Hst Hinv.
  - exists w. split; [exact Hinv|]. split; [reflexivity|].
    cbn [List.length writes_to map Nat.add app]. rewrite Nat.add_0_r.
    destruct (dispatch code fuel arr (List.length pre) entry w); reflexivity.
  - destruct (Hst t w) as (w1 & Hw & Hinv1); [left|exact Hinv|].
    destruct (IH (pre ++ [t])%list post fuel w1) as (w' & Hinv' & Heach & Hrun).
    + intros w2 H2. rewrite (Harr w2 H2). f_equal. rewrite <- app_assoc. reflexivity.
    + intros u w2 Hu. apply Hst. right. exact Hu.
    + exact Hinv1.
    + exists w'. split; [exact Hinv'|]. split.
      { cbn [write_each]. rewrite Hw. cbn [bind]. exact Heach. }
      rewrite length_app in Hrun. cbn [List.length] in Hrun.
      replace (List.length pre + 1)%nat with (S (List.length pre)) in Hrun by lia.
      cbn [List.length Nat.add].
      rewrite (dispatch_step _ _ _ t w w1 (Harr w Hinv)); [|
        apply list_lookup_middle; reflexivity | exact Hw].
      rewrite Hrun.
      replace (S (List.length pre) + List.length seg)%nat
        with (List.length pre + S (List.length seg))%nat by lia.
      reflexivity.
Qed.

(** When every transport of the list is steady, dispatch writes to all
    of them in list order and returns. *)
Lemma dispatch_steady_all (Inv : World -> Prop) (a : list ref) (fuel : nat) (w : World) :
  (forall w, Inv w -> arrays w !! arr = Some a) ->
  steady code Inv entry a ->
  Inv w ->
  (List.length a < fuel)%nat ->
  exists w', Inv w' /\
    dispatch code fuel arr 0 entry w = (writes_to entry a, Normal tt w').
Proof.
  intros Harr Hst Hinv Hfuel.
  destruct (dispatch_steady_run Inv a [] [] (fuel - List.length a - 1 + 1) w)
    as (w' & Hinv' & Hrun); auto.
  { intros w2 H2. rewrite app_nil_r. auto. }
  exists w'. split; [exact Hinv'|].
  replace (List.length a + (fuel - List.length a - 1 + 1))%nat with fuel in Hrun by lia.
  simpl in Hrun. rewrite Hrun.
  replace (fuel - List.length a - 1 + 1)%nat with (S (fuel - List.length a - 1)) by lia.
  rewrite (dispatch_end _ _ a w' (Harr w' Hinv')) by lia. simpl. rewrite app_nil_r. reflexivity.
Qed.
End Dispatch.

(** ** The logger *)

(** The test [level > this.level] of [log] fails for a level that passes. *)
Lemma level_passes (level threshold : LogLevel) :
  LogLevel_value level <= LogLevel_value threshold ->
  (LogLevel_value level >? LogLevel_value threshold) = false.
Proof. intros H. rewrite Z.gtb_ltb. apply Z.ltb_ge. exact H. Qed.

(** The memory transport of [world_memory] is steady for every entry. *)
Lemma memory_steady (code : UserCode) (entry : LogEntry.t) :
  steady code memory_inv entry [0%nat].
Proof.
  intros t w Ht (Hl & Ha & es & Ht0).
  apply list_elem_of_singleton in Ht. subst t.
  unfold write. rewrite Ht0. eexists. split; [reflexivity|].
  unfold memory_inv, set_transports; cbn [loggers arrays transports].
  repeat split; auto. eexists. apply lookup_insert_eq.
Qed.

Lemma memory_inv_initial : memory_inv world_memory.
Proof. repeat split. eexists. reflexivity. Qed.

(** C1, counterexample.  In [world_failing] the call at level INFO passes
    the threshold INFO and the list holds the transports 0 and 1, yet
    [write] is not called on the transport 1: the [write] of the transport
    0 throws, the memory transport 1 holds no entry afterwards. *)
Lemma fan_out_counterexample :
  LogLevel_value INFO <= LogLevel_value INFO /\
  arrays world_failing !! 0%nat = Some [0%nat; 1%nat] /\
  entry_built (log scenario_code 3 0%nat INFO "started" None world_failing) = Some started /\
  writes (log scenario_code 3 0%nat INFO "started" None world_failing)
    <> writes_to started [0%nat; 1%nat] /\
  (exists w', final_world (outcome (log scenario_code 3 0%nat INFO "started" None
                                        world_failing)) = Some w' /\
              transports w' !! 1%nat = Some (MemoryTransport [])).
Proof.
  split; [simpl; lia|]. split; [reflexivity|]. split; [reflexivity|].
  split; [discriminate|]. eexists. split; reflexivity.
Qed.

(** C1, as the code has it.  A call [log(level, message, options)]
    constructs an entry exactly when [level <= this.level] numerically.
    When the level is above the threshold the call makes no [write] call
    and returns with the store as it was.  When the level passes and the
    [write] of every transport of the list returns and leaves the list in
    place, the call writes the entry to every transport of the list, in
    list order: the store it returns is the one the writes produce one
    after the other. *)
Theorem log_level_filter (code : UserCode) (fuel : nat) (this : ref) (L : Logger.t)
    (level : LogLevel) (message : string) (options : option LogOptions.t) (w : World) :
  loggers w !! this = Some L ->
  entry_built (log code fuel this level message options w)
    = (if LogLevel_value level <=? LogLevel_value (Logger.level L)
       then Some (make_entry L level message options (now w)) else None) /\
  (LogLevel_value level > LogLevel_value (Logger.level L) ->
     writes (log code fuel this level message options w) = [] /\
     outcome (log code fuel this level message options w) = Normal tt w) /\
  (LogLevel_value level <= LogLevel_value (Logger.level L) ->
     forall (Inv : World -> Prop) (a : list ref),
       (forall w', Inv w' -> arrays w' !! Logger.transports L = Some a) ->
       steady code Inv (make_entry L level message options (now w)) a ->
       Inv w -> (List.length a < fuel)%nat ->
       writes (log code fuel this level message options w)
         = writes_to (make_entry L level message options (now w)) a /\
       outcome (log code fuel this level message options w)
         = write_each code (make_entry L level message options (now w)) a w /\
       exists w', outcome (log code fuel this level message options w) = Normal tt w'
                  /\ Inv w').
Proof.
  intros HL. unfold log. rewrite HL.
  destruct (LogLevel_value level >? LogLevel_value (Logger.level L)) eqn:Hgt.
  - apply Z.gtb_lt in Hgt.
    replace (LogLevel_value level <=? LogLevel_value (Logger.level L)) with false
      by (symmetry; apply Z.leb_gt; lia).
    split; [reflexivity|]. split; [auto|]. intros Hle. lia.
  - assert (Hle : LogLevel_value level <= LogLevel_value (Logger.level L)).
    { destruct (Z.gtb_spec (LogLevel_value level) (LogLevel_value (Logger.level L)));
        [discriminate|lia]. }
    replace (LogLevel_value level <=? LogLevel_value (Logger.level L)) with true
      by (symmetry; apply Z.leb_le; lia).
    split.
    { destruct (dispatch code fuel (Logger.transports L) 0 _ w); reflexivity. }
    split; [intros Hgt'; lia|].
    intros _ Inv a Harr Hst Hinv Hfuel.
    destruct (dispatch_steady_effect code (Logger.transports L)
                (make_entry L level message options (now w)) Inv a [] []
                (S (fuel - List.length a - 1)) w)
      as (w' & Hinv' & Heach & Hrun); auto.
    { intros w2 H2. rewrite app_nil_r. auto. }
    replace (List.length a + S (fuel - List.length a - 1))%nat with fuel in Hrun by lia.
    cbn [List.length Nat.add] in Hrun. rewrite Hrun.
    rewrite (dispatch_end code _ _ _ _ a w' (Harr w' Hinv')) by (simpl; lia).
    cbn [fst snd writes outcome]. rewrite app_nil_r, Heach.
    split; [reflexivity|]. split; [reflexivity|].
    exists w'. split; [reflexivity|exact Hinv'].
Qed.

(** The transports of [world_three] are steady for every entry. *)
Lemma three_steady (code : UserCode) (entry : LogEntry.t) :
  steady code three_inv entry [0%nat; 1%nat; 2%nat].
Proof.
  intros t w Ht (Ha & (e0 & H0) & H1 & (e2 & H2)).
  apply list_elem_of_In in Ht. unfold write.
  destruct Ht as [<-|[<-|[<-|[]]]].
  - rewrite H0. eexists. split; [reflexivity|].
    unfold three_inv, set_transports; cbn [arrays transports].
    rewrite lookup_insert_eq, !lookup_insert_ne by discriminate. eauto 10.
  - rewrite H1. eexists. split; [reflexivity|].
    unfold three_inv, set_console; cbn [arrays transports]. eauto 10.
  - rewrite H2. eexists. split; [reflexivity|].
    unfold three_inv, set_transports; cbn [arrays transports].
    rewrite lookup_insert_eq, !lookup_insert_ne by discriminate. eauto 10.
Qed.

Lemma three_inv_initial : three_inv world_three.
Proof. repeat split; try (eexists; reflexivity). Qed.

(** The statement at the logger of [world_three], threshold INFO: a WARN
    call reaches the two memory transports and the console transport
    between them, in list order; a DEBUG call reaches nothing. *)
Lemma log_level_filter_witness :
  writes (log scenario_code 4 0%nat WARN "disk almost full" None world_three)
    = [(0%nat, almost_full); (1%nat, almost_full); (2%nat, almost_full)] /\
  (exists w',
      outcome (log scenario_code 4 0%nat WARN "disk almost full" None world_three)
        = Normal tt w' /\
      transports w' !! 0%nat = Some (MemoryTransport [almost_full]) /\
      transports w' !! 2%nat = Some (MemoryTransport [almost_full]) /\
      console w' = [(console_warn, "[WARN] [app] disk almost full")]) /\
  writes (log scenario_code 4 0%nat DEBUG "tick" None world_three) = [].
Proof.
  pose proof (log_level_filter scenario_code 4 0%nat
                (Logger.mk INFO (Some "app") 0%nat SimpleFormatter)) as H.
  destruct (proj2 (proj2 (H WARN "disk almost full" None world_three eq_refl))
              ltac:(simpl; lia) three_inv [0%nat; 1%nat; 2%nat])
    as (Hwrites & Hout & _).
  - intros w' Hw. apply Hw.
  - apply three_steady.
  - apply three_inv_initial.
  - simpl. lia.
  - split; [exact Hwrites|]. split.
    + rewrite Hout. eexists. split; [reflexivity|]. repeat split.
    + apply (proj1 (proj2 (H DEBUG "tick" None world_three eq_refl))). simpl. lia.
Defined.





(** C3, counterexample.  In [world_adder] the list holds the adder alone
    when dispatch begins; its [write] registers the memory transport, and
    the memory transport receives the entry of that same call.  In
    [world_remover] the list holds the remover and the memory transport
    when dispatch begins; the remover's [write] removes the memory
    transport, which then does not receive the entry. *)
Lemma snapshot_counterexample :
  (arrays world_adder !! 0%nat = Some [0%nat] /\
   writes (log scenario_code 5 0%nat INFO "started" None world_adder)
     = [(0%nat, started); (1%nat, started)]) /\
  (arrays world_remover !! 0%nat = Some [0%nat; 1%nat] /\
   writes (log scenario_code 5 0%nat INFO "started" None world_remover)
     = [(0%nat, started)]).
Proof. repeat split. Qed.

(** C3, as the code has it.  Dispatch reads the list as it is at every
    step, and goes on as long as the writes return.  Let the list be
    [pre ++ t :: post] when dispatch begins, the transports of [pre]
    steady, and let the [write] of [t] return and leave the list as
    [pre ++ t :: post2] (it appended or removed transports after itself),
    the transports of [post2] steady from then on.  Then the entry is
    written to [pre ++ t :: post2], in that order, and the store [log]
    returns is the one these writes produce one after the other: the
    transports after [t] that receive the entry are those of the list as
    [t] left it.  With [post2 = post] this is the case of a list nobody
    changes and of writes that all return, where the receivers are the
    transports of the list when dispatch begins. *)
Theorem log_dispatch_live_list (code : UserCode) (fuel : nat) (this : ref)
    (L : Logger.t) (level : LogLevel) (message : string) (options : option LogOptions.t)
    (w : World) (Inv1 Inv2 : World -> Prop) (pre post post2 : list ref) (t : ref) :
  loggers w !! this = Some L ->
  LogLevel_value level <= LogLevel_value (Logger.level L) ->
  (forall w', Inv1 w' -> arrays w' !! Logger.transports L = Some (pre ++ t :: post)%list) ->
  steady code Inv1 (make_entry L level message options (now w)) pre ->
  (forall w', Inv1 w' ->
     exists w'', write code t (make_entry L level message options (now w)) w' = Normal tt w''
                 /\ Inv2 w'') ->
  (forall w', Inv2 w' -> arrays w' !! Logger.transports L = Some (pre ++ t :: post2)%list) ->
  steady code Inv2 (make_entry L level message options (now w)) post2 ->
  Inv1 w -> (List.length pre + List.length post2 + 1 < fuel)%nat ->
  writes (log code fuel this level message options w)
    = writes_to (make_entry L level message options (now w)) (pre ++ t :: post2) /\
  outcome (log code fuel this level message options w)
    = write_each code (make_entry L level message options (now w)) (pre ++ t :: post2) w /\
  exists w', outcome (log code fuel this level message options w) = Normal tt w' /\ Inv2 w'.
Proof.
  intros HL Hle Harr1 Hst1 Ht Harr2 Hst2 Hinv Hfuel. unfold log. rewrite HL.
  rewrite (level_passes level (Logger.level L)) by assumption.
  set (entry := make_entry L level message options (now w)) in *.
  set (n := (fuel - List.length pre - List.length post2 - 2)%nat).
  destruct (dispatch_steady_effect code (Logger.transports L) entry Inv1 pre [] (t :: post)
              (S (List.length post2 + S n)) w Harr1 Hst1 Hinv)
    as (w1 & Hinv1 & Heach1 & Hrun1).
  replace (List.length pre + S (List.length post2 + S n))%nat with fuel in Hrun1
    by (unfold n; lia).
  cbn [List.length Nat.add] in Hrun1. rewrite Hrun1. clear Hrun1.
  destruct (Ht w1 Hinv1) as (w2 & Hw & Hinv2).
  rewrite (dispatch_step code _ entry _ _ _ t w1 w2 (Harr1 w1 Hinv1));
    [|apply list_lookup_middle; reflexivity|exact Hw].
  destruct (dispatch_steady_effect code (Logger.transports L) entry Inv2 post2
              (pre ++ [t])%list [] (S n) w2) as (w3 & Hinv3 & Heach2 & Hrun2); auto.
  { intros w' H'. rewrite (Harr2 w' H'), app_nil_r, <- app_assoc. reflexivity. }
  rewrite length_app in Hrun2. cbn [List.length] in Hrun2.
  replace (List.length pre + 1)%nat with (S (List.length pre)) in Hrun2 by lia.
  rewrite Hrun2. clear Hrun2.
  rewrite (dispatch_end code _ entry _ _ (pre ++ t :: post2)%list w3 (Harr2 w3 Hinv3))
    by (rewrite length_app; simpl; lia).
  cbn [fst snd writes outcome]. split; [|split].
  - unfold writes_to. rewrite app_nil_r, map_app. reflexivity.
  - rewrite write_each_app, Heach1. cbn [bind write_each]. rewrite Hw. cbn [bind].
    symmetry. exact Heach2.
  - exists w3. split; [reflexivity|exact Hinv3].
Qed.

Lemma adder_inv_initial : adder_inv [0%nat] world_adder.
Proof. repeat split. eexists. reflexivity. Qed.

(** The statement at [world_adder]: the memory transport the adder
    registers receives the entry. *)
Lemma log_dispatch_live_list_witness :
  writes (log scenario_code 5 0%nat INFO "started" None world_adder)
    = [(0%nat, started); (1%nat, started)] /\
  outcome (log scenario_code 5 0%nat INFO "started" None world_adder)
    = write_each scenario_code started [0%nat; 1%nat] world_adder /\
  exists w', outcome (log scenario_code 5 0%nat INFO "started" None world_adder)
             = Normal tt w' /\ adder_inv [0%nat; 1%nat] w'.
Proof.
  apply (log_dispatch_live_list scenario_code 5 0%nat
           (Logger.mk INFO (Some "app") 0%nat SimpleFormatter)
           INFO "started" None world_adder
           (adder_inv [0%nat]) (adder_inv [0%nat; 1%nat]) [] [] [1%nat] 0%nat).
  - reflexivity.
  - simpl. lia.
  - intros w' H. apply H.
  - intros u w' Hu. inversion Hu.
  - intros w' (Hl & Ha & Ht & es & Hm). unfold write. rewrite Ht.
    cbn [scenario_code write_fn]. unfold addTransport, get_logger.
    rewrite Hl. cbn [world_adder scenario loggers]. rewrite lookup_singleton_eq.
    cbn [bind Logger.transports]. unfold get_array. rewrite Ha. cbn [bind].
    eexists. split; [reflexivity|].
    unfold adder_inv, set_arrays; cbn [loggers arrays transports].
    repeat split; auto.
    + apply lookup_insert_eq.
    + exists es. exact Hm.
  - intros w' H. apply H.
  - intros u w' Hu (Hl & Ha & Ht & es & Hm).
    apply list_elem_of_singleton in Hu. subst u.
    unfold write. rewrite Hm. eexists. split; [reflexivity|].
    unfold adder_inv, set_transports; cbn [loggers arrays transports].
    repeat split; auto.
    + rewrite lookup_insert_ne by discriminate. exact Ht.
    + eexists. apply lookup_insert_eq.
  - apply adder_inv_initial.
  - simpl. lia.
Defined.

(** ** Transport management *)

Lemma findIndex_first {A} (p : A -> bool) (pre post : list A) (t : A) :
  p t = true -> (forall u, In u pre -> p u = false) ->
  findIndex p (pre ++ t :: post) = Some (List.length pre).
Proof.
  intros Ht. induction pre as [|u pre IH]; intros Hpre; simpl.
  - rewrite Ht. reflexivity.
  - rewrite (Hpre u) by (left; reflexivity).
    rewrite IH; [reflexivity|]. intros v Hv. apply Hpre. right. exact Hv.
Qed.

Lemma findIndex_none {A} (p : A -> bool) (a : list A) :
  (forall u, In u a -> p u = false) -> findIndex p a = None.
Proof.
  induction a as [|u a IH]; intros H; simpl; [reflexivity|].
  rewrite (H u) by (left; reflexivity).
  rewrite IH; [reflexivity|]. intros v Hv. apply H. right. exact Hv.
Qed.

(** A list with a match splits at its first match. *)
Lemma first_match_split {A} (p : A -> bool) (a : list A) :
  (exists u, In u a /\ p u = true) ->
  exists pre t post, a = (pre ++ t :: post)%list /\ p t = true /\
                     forall u, In u pre -> p u = false.
Proof.
  induction a as [|x a IH]; intros (u & Hu & Hp); [destruct Hu|].
  destruct (p x) eqn:Hx.
  - exists [], x, a. repeat split; auto. intros v [].
  - destruct IH as (pre & t & post & -> & Ht & Hpre).
    + destruct Hu as [->|Hu]; [congruence|]. exists u. auto.
    + exists (x :: pre), t, post. repeat split; auto.
      intros v [<-|Hv]; auto.
Qed.

Lemma splice1_middle {A} (pre post : list A) (t : A) :
  splice1 (List.length pre) (pre ++ t :: post) = (pre ++ post)%list.
Proof.
  unfold splice1. rewrite take_app_length.
  replace (S (List.length pre)) with (List.length (pre ++ [t])%list)
    by (rewrite length_app; simpl; lia).
  replace (pre ++ t :: post)%list with ((pre ++ [t]) ++ post)%list
    by (rewrite <- app_assoc; reflexivity).
  rewrite drop_app_length. reflexivity.
Qed.

(** C6. [removeTransport(name)] removes the first transport of the list
    whose name is [name] and returns [true] when there is one, the other
    transports (later ones of the same name among them) staying in place
    and in order; when no transport has the name it returns [false] and
    leaves the store, the list with it, as it was. *)
Theorem removeTransport_first_match (this : ref) (L : Logger.t) (a : list ref)
    (name : string) (w : World) :
  loggers w !! this = Some L ->
  arrays w !! Logger.transports L = Some a ->
  ((exists u, In u a /\ has_name w name u = true) ->
     exists pre t post,
       a = (pre ++ t :: post)%list /\
       has_name w name t = true /\
       (forall u, In u pre -> has_name w name u = false) /\
       removeTransport this name w
         = Normal true (set_arrays <[Logger.transports L := (pre ++ post)%list]> w)) /\
  ((forall u, In u a -> has_name w name u = false) ->
     removeTransport this name w = Normal false w).
Proof.
  intros HL Ha. unfold removeTransport, get_logger, get_array.
  rewrite HL. cbn [bind]. rewrite Ha. cbn [bind]. split.
  - intros Hex. destruct (first_match_split _ a Hex) as (pre & t & post & -> & Ht & Hpre).
    exists pre, t, post. repeat split; auto.
    rewrite (findIndex_first _ pre post t Ht Hpre), splice1_middle. reflexivity.
  - intros Hnone. rewrite (findIndex_none _ a Hnone). reflexivity.
Qed.

(** The statement at [world_three]: removing [console] takes the middle
    transport out; removing [memory] takes the first of the two memory
    transports and keeps the second; removing [file] changes nothing. *)
Lemma removeTransport_first_match_witness :
  (exists pre t post,
      [0%nat; 1%nat; 2%nat] = (pre ++ t :: post)%list /\
      has_name world_three "memory" t = true /\
      (forall u, In u pre -> has_name world_three "memory" u = false) /\
      removeTransport 0%nat "memory" world_three
        = Normal true (set_arrays <[0%nat := (pre ++ post)%list]> world_three)) /\
  removeTransport 0%nat "file" world_three = Normal false world_three.
Proof.
  pose proof (removeTransport_first_match 0%nat
                (Logger.mk INFO (Some "app") 0%nat SimpleFormatter)
                [0%nat; 1%nat; 2%nat]) as H.
  split.
  - apply (proj1 (H "memory" world_three eq_refl eq_refl)).
    exists 2%nat. split; [simpl; auto|reflexivity].
  - apply (proj2 (H "file" world_three eq_refl eq_refl)).
    intros u [<-|[<-|[<-|[]]]]; reflexivity.
Defined.

Example remove_memory_keeps_second :
  (call (_, w) <- removeTransport 0%nat "memory" world_three; get_array 0%nat w)
  = Normal [1%nat; 2%nat]
           (set_arrays <[0%nat := [1%nat; 2%nat]]> world_three).
Proof. reflexivity. Qed.

(** ** Child loggers *)

(** What [child] returns, computed. *)
Lemma child_unfold (this : ref) (L : Logger.t) (s : string) (w : World) :
  loggers w !! this = Some L ->
  child this s w =
    Normal (fresh (dom (loggers w)))
           (set_loggers
              <[fresh (dom (loggers w)) :=
                  Logger.mk (Logger.level L)
                            (Some (if truthy (Logger.context L)
                                   then default EmptyString (Logger.context L) ++ ":" ++ s
                                   else s))
                            (Logger.transports L) (Logger.formatter L)]> w).
Proof. intros HL. unfold child, get_logger. rewrite HL. reflexivity. Qed.

Lemma fresh_logger_unused (w : World) : loggers w !! fresh (dom (loggers w)) = None.
Proof. apply not_elem_of_dom, is_fresh. Qed.

(** C5, counterexample.  The logger of [world_empty_context] has a
    context, the empty string; its child for the segment [B] has the
    context [B], not [:B]. *)
Lemma child_context_counterexample :
  Logger.context <$> loggers world_empty_context !! 0%nat = Some (Some EmptyString) /\
  exists c w',
    child 0%nat "B" world_empty_context = Normal c w' /\
    Logger.context <$> loggers w' !! c = Some (Some "B") /\
    Logger.context <$> loggers w' !! c <> Some (Some (EmptyString ++ ":" ++ "B")).
Proof.
  split; [reflexivity|].
  eexists _, _. split; [reflexivity|]. split; [reflexivity|]. discriminate.
Qed.

(** C5, as the code has it.  [L.child(s)] returns a new logger whose level
    is [L]'s level at that time, whose transport list is the list object
    of [L], and whose context is [L.context + ":" + s] when [L] has a
    context that is not the empty string, else exactly [s].  The list
    being shared, a transport added to [L] afterwards is in the list the
    child reads. *)
Theorem child_logger (this : ref) (L : Logger.t) (s : string) (w : World) :
  loggers w !! this = Some L ->
  exists (c : ref) (C : Logger.t) (w' : World),
    child this s w = Normal c w' /\
    loggers w !! c = None /\
    loggers w' !! c = Some C /\
    loggers w' !! this = Some L /\
    arrays w' = arrays w /\
    Logger.level C = Logger.level L /\
    Logger.transports C = Logger.transports L /\
    Logger.formatter C = Logger.formatter L /\
    Logger.context C = Some (match Logger.context L with
                             | Some p => if String.eqb p EmptyString then s
                                         else p ++ ":" ++ s
                             | None => s
                             end) /\
    (forall (w1 : World) (a : list ref) (t : ref),
        loggers w1 !! this = Some L -> loggers w1 !! c = Some C ->
        arrays w1 !! Logger.transports L = Some a ->
        exists w2, addTransport this t w1 = Normal tt w2 /\
                   loggers w2 !! c = Some C /\
                   arrays w2 !! Logger.transports C = Some (a ++ [t])%list).
Proof.
  intros HL. pose proof (fresh_logger_unused w) as Hfresh.
  assert (Hne : fresh (dom (loggers w)) <> this).
  { intros Heq. rewrite Heq in Hfresh. congruence. }
  eexists _, _, _. split; [apply (child_unfold this L s w HL)|].
  split; [exact Hfresh|].
  split; [apply lookup_insert_eq|].
  split.
  { cbn [set_loggers loggers]. rewrite lookup_insert_ne; [exact HL|exact Hne]. }
  split; [reflexivity|]. split; [reflexivity|]. split; [reflexivity|]. split; [reflexivity|].
  split.
  { cbn [Logger.context]. f_equal. destruct (Logger.context L) as [[|ch p]|]; reflexivity. }
  intros w1 a t H1 Hc Ha. unfold addTransport, get_logger, get_array.
  rewrite H1. cbn [bind]. rewrite Ha. cbn [bind].
  eexists. split; [reflexivity|]. split; [exact Hc|].
  cbn [Logger.transports set_arrays arrays]. apply lookup_insert_eq.
Qed.

(** The statement at [world_memory]: the child for [db] of the logger
    with context [app]. *)
Lemma child_logger_witness :
  exists (c : ref) (C : Logger.t) (w' : World),
    child 0%nat "db" world_memory = Normal c w' /\
    loggers w' !! c = Some C /\
    Logger.level C = INFO /\
    Logger.transports C = 0%nat /\
    Logger.context C = Some "app:db".
Proof.
  destruct (child_logger 0%nat (Logger.mk INFO (Some "app") 0%nat SimpleFormatter)
              "db" world_memory eq_refl)
    as (c & C & w' & H1 & _ & H3 & _ & _ & H6 & H7 & _ & H9 & _).
  exists c, C, w'. repeat split; assumption.
Defined.

(** C10. For a logger without context, [child] of the empty segment returns a logger whose
    context is the empty string; an entry logged through it has the empty
    string as its context, and the three formatters render that entry as
    they render it without context: the text formatters leave out the
    context segment and its space, the JSON formatter leaves out the
    [context] key. *)
Theorem child_empty_segment (this : ref) (L : Logger.t) (w : World) :
  loggers w !! this = Some L ->
  Logger.context L = None ->
  exists (c : ref) (C : Logger.t) (w' : World),
    child this EmptyString w = Normal c w' /\
    loggers w' !! c = Some C /\
    Logger.context C = Some EmptyString /\
    (forall (code : UserCode) (fuel : nat) (level : LogLevel) (message : string)
            (w1 : World),
        loggers w1 !! c = Some C ->
        LogLevel_value level <= LogLevel_value (Logger.level C) ->
        exists e,
          entry_built (log code fuel c level message None w1) = Some e /\
          LogEntry.context e = Some EmptyString /\
          format SimpleFormatter e = format SimpleFormatter (with_context None e) /\
          format TimestampedFormatter e = format TimestampedFormatter (with_context None e) /\
          format JsonFormatter e = format JsonFormatter (with_context None e) /\
          get_property "context" (JsonFormatter_obj e) = None).
Proof.
  intros HL Hctx.
  eexists _, _, _. split; [apply (child_unfold this L EmptyString w HL)|].
  split; [apply lookup_insert_eq|]. rewrite Hctx. split; [reflexivity|].
  intros code fuel level message w1 Hc Hle. unfold log. rewrite Hc.
  cbn [Logger.level Logger.context Logger.transports] in *.
  rewrite (level_passes level (Logger.level L)) by assumption.
  eexists. split.
  { destruct (dispatch code fuel (Logger.transports L) 0 _ w1); reflexivity. }
  split; [reflexivity|].
  set (e := make_entry _ level message None (now w1)).
  destruct (empty_context_formatting e) as (Hs & Ht & Hj & Hk).
  split; [exact Hs|]. split; [exact Ht|]. split.
  - unfold format, JsonFormatter_format. rewrite <- Hj. reflexivity.
  - exact Hk.
Qed.

(** The statement at [world_no_context]. *)
Lemma child_empty_segment_witness :
  exists (c : ref) (C : Logger.t) (w' : World),
    child 0%nat EmptyString world_no_context = Normal c w' /\
    loggers w' !! c = Some C /\
    Logger.context C = Some EmptyString.
Proof.
  destruct (child_empty_segment 0%nat (Logger.mk INFO None 0%nat SimpleFormatter)
              world_no_context eq_refl eq_refl)
    as (c & C & w' & H1 & H2 & H3 & _).
  exists c, C, w'. repeat split; assumption.
Defined.

(** ** Per-call options *)

(** C7. A call of [log] with options leaves the logger as it was, its
    level, default context, formatter and transport list: the entry of the
    call has the context of the options in place of the default, and the
    entry of a later call without options has the default context again.
    The transports are ones whose [write] returns and leaves the logger
    and its list in place. *)
Theorem log_options_frame (code : UserCode) (fuel fuel2 : nat) (this : ref)
    (L : Logger.t) (a : list ref) (level level2 : LogLevel) (message message2 : string)
    (options : LogOptions.t) (w : World) (Inv : World -> Prop) :
  loggers w !! this = Some L ->
  LogLevel_value level <= LogLevel_value (Logger.level L) ->
  LogLevel_value level2 <= LogLevel_value (Logger.level L) ->
  (forall w', Inv w' ->
     loggers w' !! this = Some L /\ arrays w' !! Logger.transports L = Some a) ->
  (forall e, steady code Inv e a) ->
  Inv w -> (List.length a < fuel)%nat ->
  exists (e : LogEntry.t) (w' : World),
    entry_built (log code fuel this level message (Some options) w) = Some e /\
    LogEntry.context e = match LogOptions.context options with
                         | Some c => Some c
                         | None => Logger.context L
                         end /\
    LogEntry.data e = LogOptions.data options /\
    LogEntry.error e = LogOptions.error options /\
    writes (log code fuel this level message (Some options) w) = writes_to e a /\
    outcome (log code fuel this level message (Some options) w) = Normal tt w' /\
    loggers w' !! this = Some L /\
    arrays w' !! Logger.transports L = Some a /\
    exists e2 : LogEntry.t,
      entry_built (log code fuel2 this level2 message2 None w') = Some e2 /\
      LogEntry.context e2 = Logger.context L.
Proof.
  intros HL Hle Hle2 Hkeep Hst Hinv Hfuel.
  set (e := make_entry L level message (Some options) (now w)).
  destruct (dispatch_steady_all code (Logger.transports L) e Inv a fuel w)
    as (w' & Hinv' & Hrun); auto.
  { intros w1 H1. apply (Hkeep w1 H1). }
  destruct (Hkeep w' Hinv') as [HL' Ha'].
  exists e, w'. split; [|split; [|split; [|split; [|split; [|split; [|split;
    [exact HL'|split; [exact Ha'|]]]]]]]]; unfold log; rewrite ?HL, ?HL'.
  all: rewrite ?(level_passes level (Logger.level L)), ?(level_passes level2 (Logger.level L))
    by assumption.
  all: fold e; rewrite ?Hrun; try reflexivity.
  eexists. split.
  - destruct (dispatch code fuel2 (Logger.transports L) 0 _ w'); reflexivity.
  - reflexivity.
Qed.

(** The statement at [world_memory]: a call with the context [request],
    then one without options. *)
Lemma log_options_frame_witness :
  exists (e : LogEntry.t) (w' : World),
    entry_built (log scenario_code 2 0%nat INFO "started"
                     (Some (LogOptions.mk (Some "request") None None)) world_memory) = Some e /\
    LogEntry.context e = Some "request" /\
    outcome (log scenario_code 2 0%nat INFO "started"
                 (Some (LogOptions.mk (Some "request") None None)) world_memory)
      = Normal tt w' /\
    loggers w' !! 0%nat = Some (Logger.mk INFO (Some "app") 0%nat SimpleFormatter) /\
    exists e2 : LogEntry.t,
      entry_built (log scenario_code 2 0%nat WARN "again" None w') = Some e2 /\
      LogEntry.context e2 = Some "app".
Proof.
  destruct (log_options_frame scenario_code 2 2 0%nat
              (Logger.mk INFO (Some "app") 0%nat SimpleFormatter) [0%nat]
              INFO WARN "started" "again" (LogOptions.mk (Some "request") None None)
              world_memory memory_inv)
    as (e & w' & H1 & H2 & _ & _ & _ & H6 & H7 & _ & H9).
  - reflexivity.
  - simpl. lia.
  - simpl. lia.
  - intros w' (Hl & Ha & _). split; [exact Hl|exact Ha].
  - intros e. apply memory_steady.
  - apply memory_inv_initial.
  - simpl. lia.
  - exists e, w'. repeat split; assumption.
Defined.

(** ** Construction of a callback transport *)

(** C9, counterexample.  Constructing a callback transport from options
    without a callback returns a transport; the error comes at the first
    [write]. *)
Lemma callback_missing_counterexample :
  exists (t : ref) (w' : World),
    new_CallbackTransport (CallbackTransportOptions.mk None None) world_memory
      = Normal t w' /\
    write scenario_code t started w' = Throw TypeError_not_a_function w'.
Proof. eexists _, _. split; reflexivity. Qed.

(** C9, as the code has it.  The constructor of [CallbackTransport] checks
    nothing: from an options object without a callback it returns a new
    transport object, and every [write] on that object throws the
    [TypeError] of calling what is not a function. *)
Theorem CallbackTransport_without_callback (formatter : option Formatter) (w : World)
    (code : UserCode) (entry : LogEntry.t) :
  exists (t : ref) (w' : World),
    new_CallbackTransport (CallbackTransportOptions.mk None formatter) w = Normal t w' /\
    transports w !! t = None /\
    transports w' !! t = Some (CallbackTransport None (default SimpleFormatter formatter)) /\
    write code t entry w' = Throw TypeError_not_a_function w'.
Proof.
  eexists _, _. split; [reflexivity|].
  split; [apply not_elem_of_dom, is_fresh|].
  split; [apply lookup_insert_eq|].
  unfold write. cbn [set_transports transports CallbackTransportOptions.callback
                     CallbackTransportOptions.formatter].
  rewrite lookup_insert_eq. reflexivity.
Qed.

(* ===================================================================== *)
(** * Further properties of the library *)
(* ===================================================================== *)

(** ** Parsing of level names *)

Lemma upper_code_unit_idempotent (c : N) :
  flat_map upper_code_unit (upper_code_unit c) = upper_code_unit c.
Proof.
  unfold upper_code_unit at 2 3. destruct (is_lower_unit c) eqn:Hl.
  - unfold is_lower_unit in Hl. apply andb_true_iff in Hl as [H1 H2].
    apply N.leb_le in H1, H2. cbn [flat_map]. rewrite app_nil_r.
    apply upper_code_unit_kept; [|lia].
    unfold is_lower_unit. replace ((97 <=? c - 32)%N) with false; [reflexivity|].
    symmetry. apply N.leb_gt. lia.
  - repeat match goal with
           | |- context [(c =? ?k)%N] => destruct (N.eqb_spec c k); [reflexivity|]
           end.
    cbn [flat_map]. rewrite app_nil_r. unfold upper_code_unit. rewrite Hl.
    repeat match goal with
           | |- context [(c =? ?k)%N] => destruct (N.eqb_spec c k); [contradiction|]
           end.
    reflexivity.
Qed.

Lemma toUpperCase_idempotent (s : list N) : toUpperCase (toUpperCase s) = toUpperCase s.
Proof.
  unfold toUpperCase. induction s as [|c s IH]; [reflexivity|].
  cbn [flat_map]. rewrite flat_map_app, upper_code_unit_idempotent, IH. reflexivity.
Qed.

(** X1. [parseLogLevel] returns a level exactly when the upper-cased input
    is that level's name in [LOG_LEVEL_NAMES]; in particular it inverts
    the name table. *)
Theorem parseLogLevel_upper_name (s : list N) (l : LogLevel) :
  (parseLogLevel s = Some l <-> toUpperCase s = code_units (LOG_LEVEL_NAMES l)) /\
  parseLogLevel (code_units (LOG_LEVEL_NAMES l)) = Some l.
Proof.
  split; [apply parseLogLevel_by_upper|]. destruct l; reflexivity.
Qed.

(** X2. The result of [parseLogLevel] does not depend on the case of the
    input: upper-casing the input first changes nothing. *)
Theorem parseLogLevel_ignores_case (s : list N) :
  parseLogLevel (toUpperCase s) = parseLogLevel s.
Proof.
  unfold parseLogLevel. rewrite toUpperCase_idempotent. reflexivity.
Qed.

Lemma case_variant_letters (name : list N) :
  all_upper name = true ->
  forall s, case_variant s name = true -> all_letters s = true.
Proof.
  induction name as [|d name IH]; intros Hup [|c s] H; simpl in *; try discriminate;
    [reflexivity|].
  apply andb_true_iff in Hup as [Hd Hup]. apply andb_true_iff in H as [Hc H].
  rewrite (IH Hup s H), andb_true_r.
  unfold lower_unit in Hc. rewrite Hd in Hc. pose proof Hd as Hd'.
  unfold is_upper_unit in Hd'. apply andb_true_iff in Hd' as [Hd1 Hd2].
  apply N.leb_le in Hd1, Hd2.
  apply orb_true_iff in Hc as [Hc|Hc]; apply N.eqb_eq in Hc; subst c.
  - rewrite Hd. reflexivity.
  - apply orb_true_iff. right. unfold is_lower_unit.
    apply andb_true_iff. split; apply N.leb_le; lia.
Qed.

(** X3. For an input of ASCII characters, [parseLogLevel] returns a level
    only if the input consists of letters and has the length of the
    level's name: the input is not trimmed, and a digit, a blank or any
    other ASCII character that is not a letter, anywhere in it, gives
    [null]. *)
Theorem parseLogLevel_letters_only (s : list N) (l : LogLevel) :
  is_ascii s = true ->
  parseLogLevel s = Some l ->
  all_letters s = true /\
  List.length s = String.length (LOG_LEVEL_NAMES l).
Proof.
  intros Hs H. apply parseLogLevel_by_upper in H.
  assert (Hv : case_variant s (code_units (LOG_LEVEL_NAMES l)) = true).
  { rewrite <- (toUpperCase_matches _ (names_all_upper l) s Hs).
    apply units_eqb_eq. congruence. }
  split.
  - exact (case_variant_letters _ (names_all_upper l) s Hv).
  - rewrite (case_variant_length s _ Hv). destruct l; reflexivity.
Qed.

Lemma parseLogLevel_letters_only_witness :
  all_letters (code_units "Debug") = true /\
  List.length (code_units "Debug") = String.length (LOG_LEVEL_NAMES DEBUG).
Proof.
  apply (parseLogLevel_letters_only (code_units "Debug") DEBUG); reflexivity.
Defined.

Example parse_untrimmed :
  map (fun s => parseLogLevel (code_units s)) ["INFO "; " INFO"; "INFO1"; "IN FO"]
  = replicate 4 None.
Proof. reflexivity. Qed.

Lemma parseLogLevel_upper_name_witness :
  toUpperCase (code_units "trace") = code_units (LOG_LEVEL_NAMES TRACE).
Proof.
  apply (proj1 (proj1 (parseLogLevel_upper_name (code_units "trace") TRACE))). reflexivity.
Defined.

(** ** Formatters *)

Lemma string_app_assoc (a b c : string) : (a ++ b) ++ c = a ++ (b ++ c).
Proof.
  induction a as [|x a IH]; [reflexivity|].
  change (String x ((a ++ b) ++ c) = String x (a ++ (b ++ c))). f_equal. exact IH.
Qed.

Lemma append_data_prefix (e : LogEntry.t) (p m : string) :
  append_data e (p ++ m) = p ++ append_data e m.
Proof.
  unfold append_data. destruct (LogEntry.data e) as [d|]; [|reflexivity].
  destruct (0 <? Object_keys_length d)%nat; [|reflexivity].
  rewrite string_app_assoc. reflexivity.
Qed.

Lemma append_error_prefix (e : LogEntry.t) (p m : string) :
  append_error e (p ++ m) = p ++ append_error e m.
Proof.
  unfold append_error. destruct (LogEntry.error e) as [x|]; [|reflexivity].
  rewrite string_app_assoc. reflexivity.
Qed.

(** X4. The output of [TimestampedFormatter] is the ISO timestamp in
    brackets, a blank, and the output of [SimpleFormatter] for the same
    entry, whatever context, data and error the entry carries. *)
Theorem TimestampedFormatter_is_prefixed_Simple (e : LogEntry.t) :
  TimestampedFormatter_format e
  = "[" ++ toISOString (LogEntry.timestamp e) ++ "] " ++ SimpleFormatter_format e.
Proof.
  unfold TimestampedFormatter_format, SimpleFormatter_format. cbv zeta.
  set (body := "[" ++ LOG_LEVEL_NAMES (LogEntry.level e) ++ "] "
               ++ (if truthy (LogEntry.context e)
                   then "[" ++ default EmptyString (LogEntry.context e) ++ "] "
                   else EmptyString) ++ LogEntry.message e).
  set (time := toISOString (LogEntry.timestamp e)).
  replace ("[" ++ time ++ "] [" ++ LOG_LEVEL_NAMES (LogEntry.level e) ++ "] "
           ++ (if truthy (LogEntry.context e)
               then "[" ++ default EmptyString (LogEntry.context e) ++ "] "
               else EmptyString) ++ LogEntry.message e)
    with (("[" ++ time ++ "] ") ++ body).
  - rewrite append_data_prefix, append_error_prefix.
    rewrite !string_app_assoc. reflexivity.
  - unfold body. rewrite !string_app_assoc. reflexivity.
Qed.

(** X5. The object [JsonFormatter] builds has the keys [level], [message]
    and [timestamp] first, then [context] when the context is set and not
    empty, [data] when data is set (empty or not) and [error] when an
    error is set, in this order; [level] holds the level's name and
    [message] the message as it is. *)
Theorem JsonFormatter_obj_keys (e : LogEntry.t) :
  map fst (JsonFormatter_obj e)
  = (["level"; "message"; "timestamp"]
       ++ (if truthy (LogEntry.context e) then ["context"] else [])
       ++ match LogEntry.data e with Some _ => ["data"] | None => [] end
       ++ match LogEntry.error e with Some _ => ["error"] | None => [] end)%list /\
  get_property "level" (JsonFormatter_obj e)
    = Some (JString (LOG_LEVEL_NAMES (LogEntry.level e))) /\
  get_property "message" (JsonFormatter_obj e) = Some (JString (LogEntry.message e)) /\
  get_property "timestamp" (JsonFormatter_obj e)
    = Some (JString (toISOString (LogEntry.timestamp e))).
Proof.
  unfold JsonFormatter_obj.
  destruct (truthy (LogEntry.context e)), (LogEntry.data e), (LogEntry.error e);
    repeat split.
Qed.



(** ** Transports *)

(** X7. Writing an entry to a memory transport appends it to the
    transport's entries: [getEntries()] then returns the former entries
    followed by the entry, and [getEntries(l)] the former entries of level
    [l] followed by the entry when its level is [l].  The write changes
    nothing else in the store. *)
Theorem MemoryTransport_write_getEntries (code : UserCode) (t : ref)
    (entries : list LogEntry.t) (e : LogEntry.t) (w : World) :
  transports w !! t = Some (MemoryTransport entries) ->
  exists w',
    write code t e w = Normal tt w' /\
    getEntries t None w' = Normal (entries ++ [e])%list w' /\
    (forall l, getEntries t (Some l) w'
               = Normal (at_level l entries
                           ++ (if LogLevel_eqb (LogEntry.level e) l then [e] else []))%list w') /\
    loggers w' = loggers w /\ arrays w' = arrays w /\ console w' = console w /\
    (forall u, u <> t -> transports w' !! u = transports w !! u).
Proof.
  intros Ht. unfold write. rewrite Ht. eexists. split; [reflexivity|].
  unfold getEntries, set_transports; cbn [transports loggers arrays console].
  rewrite lookup_insert_eq. split; [reflexivity|]. split.
  - intros l. f_equal. fold (at_level l (entries ++ [e])). unfold at_level.
    rewrite filter_app. f_equal. rewrite filter_cons, filter_nil.
    destruct (LogLevel_eqb (LogEntry.level e) l) eqn:E; case_decide; congruence.
  - repeat split. intros u Hu. apply lookup_insert_ne. congruence.
Qed.

Lemma MemoryTransport_write_getEntries_witness :
  exists w',
    write scenario_code 0%nat started world_memory = Normal tt w' /\
    getEntries 0%nat None w' = Normal [started] w'.
Proof.
  destruct (MemoryTransport_write_getEntries scenario_code 0%nat [] started world_memory
              eq_refl) as (w' & H1 & H2 & _).
  exists w'. split; assumption.
Defined.

Lemma LogLevel_eqb_eq (a b : LogLevel) : LogLevel_eqb a b = true <-> a = b.
Proof. destruct a, b; simpl; split; (reflexivity || discriminate). Qed.

Lemma at_level_selection (l : LogLevel) (entries : list LogEntry.t) :
  selection l entries (at_level l entries).
Proof.
  unfold at_level. induction entries as [|e entries IH]; [constructor|].
  rewrite filter_cons. case_decide as H.
  - apply selection_keep; [apply LogLevel_eqb_eq; exact H|exact IH].
  - apply selection_skip; [|exact IH]. intros Heq. apply H, LogLevel_eqb_eq, Heq.
Qed.

Lemma selection_unique (l : LogLevel) (entries s1 s2 : list LogEntry.t) :
  selection l entries s1 -> selection l entries s2 -> s1 = s2.
Proof.
  intros H1. revert s2. induction H1 as [|e entries sel He _ IH|e entries sel He _ IH];
    intros s2 H2; inversion H2; subst; try contradiction; try reflexivity.
  - f_equal. apply IH. assumption.
  - apply IH. assumption.
Qed.

Lemma at_level_lengths (entries : list LogEntry.t) :
  (List.length (at_level ERROR entries) + List.length (at_level WARN entries)
   + List.length (at_level INFO entries) + List.length (at_level DEBUG entries)
   + List.length (at_level TRACE entries) = List.length entries)%nat.
Proof.
  unfold at_level. induction entries as [|e entries IH]; [reflexivity|].
  rewrite !filter_cons. cbn [List.length].
  destruct (LogEntry.level e); repeat case_decide; try discriminate;
    try (exfalso; auto; fail); cbn [List.length]; lia.
Qed.

(** X8. [getEntries()] returns the stored entries and [getEntries(l)]
    returns exactly the stored entries of level [l], each as often and in
    the order it is stored, without changing the store; what the calls for
    the five levels return has together as many entries as the transport
    holds. *)
Theorem getEntries_by_level (t : ref) (entries : list LogEntry.t) (w : World) :
  transports w !! t = Some (MemoryTransport entries) ->
  getEntries t None w = Normal entries w /\
  (forall l, exists sel,
      getEntries t (Some l) w = Normal sel w /\
      selection l entries sel /\
      (forall sel', selection l entries sel' -> sel' = sel)) /\
  (exists sE sW sI sD sT,
      getEntries t (Some ERROR) w = Normal sE w /\
      getEntries t (Some WARN) w = Normal sW w /\
      getEntries t (Some INFO) w = Normal sI w /\
      getEntries t (Some DEBUG) w = Normal sD w /\
      getEntries t (Some TRACE) w = Normal sT w /\
      (List.length sE + List.length sW + List.length sI + List.length sD
       + List.length sT = List.length entries)%nat).
Proof.
  intros Ht. unfold getEntries. rewrite Ht. split; [reflexivity|]. split.
  - intros l. exists (at_level l entries). split; [reflexivity|].
    split; [apply at_level_selection|].
    intros sel' H. exact (selection_unique l entries _ _ H (at_level_selection l entries)).
  - exists (at_level ERROR entries), (at_level WARN entries), (at_level INFO entries),
      (at_level DEBUG entries), (at_level TRACE entries).
    repeat (split; [reflexivity|]). apply at_level_lengths.
Qed.

(** The statement at [world_logged]: of the entries [failed], [started],
    [failed] the selection for ERROR is [failed] twice. *)
Lemma getEntries_by_level_witness :
  getEntries 0%nat None world_logged = Normal [failed; started; failed] world_logged /\
  getEntries 0%nat (Some ERROR) world_logged = Normal [failed; failed] world_logged /\
  getEntries 0%nat (Some INFO) world_logged = Normal [started] world_logged.
Proof.
  destruct (getEntries_by_level 0%nat [failed; started; failed] world_logged eq_refl)
    as (Hall & Hsel & _).
  split; [exact Hall|]. split.
  - destruct (Hsel ERROR) as (sel & Hget & _ & Huniq). rewrite Hget.
    rewrite <- (Huniq [failed; failed]); [reflexivity|].
    apply selection_keep; [reflexivity|]. apply selection_skip; [discriminate|].
    apply selection_keep; [reflexivity|]. apply selection_nil.
  - destruct (Hsel INFO) as (sel & Hget & _ & Huniq). rewrite Hget.
    rewrite <- (Huniq [started]); [reflexivity|].
    apply selection_skip; [discriminate|]. apply selection_keep; [reflexivity|].
    apply selection_skip; [discriminate|]. apply selection_nil.
Defined.

(** X9. [clear] empties a memory transport and nothing else: afterwards
    [getEntries] returns no entry for any selection, a next write makes the
    written entry the only one, and clearing again changes nothing. *)
Theorem MemoryTransport_clear (code : UserCode) (t : ref) (entries : list LogEntry.t)
    (e : LogEntry.t) (w : World) :
  transports w !! t = Some (MemoryTransport entries) ->
  exists w',
    clear t w = Normal tt w' /\
    (forall sel, getEntries t sel w' = Normal [] w') /\
    clear t w' = Normal tt w' /\
    (exists w1, write code t e w' = Normal tt w1 /\
                getEntries t None w1 = Normal [e] w1) /\
    loggers w' = loggers w /\ arrays w' = arrays w /\ console w' = console w /\
    (forall u, u <> t -> transports w' !! u = transports w !! u).
Proof.
  intros Ht. unfold clear. rewrite Ht. eexists. split; [reflexivity|].
  unfold getEntries, write, set_transports; cbn [transports loggers arrays console bind].
  rewrite !lookup_insert_eq.
  split; [intros [l|]; reflexivity|].
  split; [rewrite insert_insert_eq; reflexivity|].
  split.
  { eexists. split; [reflexivity|]. cbn [transports]. rewrite lookup_insert_eq. reflexivity. }
  repeat split. intros u Hu. apply lookup_insert_ne. congruence.
Qed.

(** The statement at [world_logged], whose memory transport holds three
    entries before the call. *)
Lemma MemoryTransport_clear_witness :
  getEntries 0%nat None world_logged = Normal [failed; started; failed] world_logged /\
  exists w',
    clear 0%nat world_logged = Normal tt w' /\
    getEntries 0%nat None w' = Normal [] w' /\
    getEntries 0%nat (Some ERROR) w' = Normal [] w' /\
    (exists w1, write scenario_code 0%nat started w' = Normal tt w1 /\
                getEntries 0%nat None w1 = Normal [started] w1).
Proof.
  split; [reflexivity|].
  destruct (MemoryTransport_clear scenario_code 0%nat [failed; started; failed] started
              world_logged eq_refl) as (w' & H1 & H2 & _ & H4 & _).
  exists w'. split; [exact H1|]. split; [apply H2|]. split; [apply H2|exact H4].
Defined.

(** X10. A callback transport constructed with a callback calls it, on
    every [write], with the entry and the entry formatted by the
    transport's formatter, [SimpleFormatter] when the options give none;
    what the callback does (return, throw) is what [write] does. *)
Theorem CallbackTransport_write_calls_back (code : UserCode) (k : nat)
    (formatter : option Formatter) (e : LogEntry.t) (w : World) :
  exists (t : ref) (w' : World),
    createCallbackTransport (CallbackTransportOptions.mk (Some k) formatter) w
      = Normal t w' /\
    transports w !! t = None /\
    Transport_name <$> transports w' !! t = Some "callback" /\
    write code t e w'
      = callback_fn code k e (format (default SimpleFormatter formatter) e) w' /\
    (formatter = None ->
     write code t e w' = callback_fn code k e (SimpleFormatter_format e) w').
Proof.
  eexists _, _. split; [reflexivity|].
  split; [apply not_elem_of_dom, is_fresh|].
  unfold write, set_transports; cbn [transports].
  rewrite !lookup_insert_eq. split; [reflexivity|]. split; [reflexivity|].
  intros ->. reflexivity.
Qed.

Lemma CallbackTransport_write_calls_back_witness :
  exists (t : ref) (w' : World),
    createCallbackTransport (CallbackTransportOptions.mk (Some 0%nat) None) world_memory
      = Normal t w' /\
    write scenario_code t started w'
      = callback_fn scenario_code 0%nat started (SimpleFormatter_format started) w'.
Proof.
  destruct (CallbackTransport_write_calls_back scenario_code 0%nat None started world_memory)
    as (t & w' & H1 & _ & _ & _ & H5).
  exists t, w'. split; [exact H1|]. apply H5. reflexivity.
Defined.

(** X11. [ConsoleTransport.write] makes one call on the console, with the
    entry formatted by the transport's formatter: [console.error] for
    ERROR, [console.warn] for WARN, [console.info] for INFO and
    [console.debug] for DEBUG and for TRACE alike.  Nothing else in the
    store changes. *)
Theorem ConsoleTransport_write_channel (code : UserCode) (t : ref) (f : Formatter)
    (e : LogEntry.t) (w : World) :
  transports w !! t = Some (ConsoleTransport f) ->
  exists w',
    write code t e w = Normal tt w' /\
    console w'
    = (console w
         ++ [(match LogEntry.level e with
              | ERROR => console_error
              | WARN => console_warn
              | INFO => console_info
              | DEBUG => console_debug
              | TRACE => console_debug
              end, format f e)])%list /\
    loggers w' = loggers w /\ arrays w' = arrays w /\ transports w' = transports w /\
    now w' = now w.
Proof.
  intros Ht. unfold write. rewrite Ht. eexists. split; [reflexivity|].
  split; [|repeat split].
  cbn [set_console console]. destruct (LogEntry.level e); reflexivity.
Qed.

Lemma ConsoleTransport_write_channel_witness :
  exists w',
    write scenario_code 0%nat almost_full world_console = Normal tt w' /\
    console w' = [(console_warn, JsonFormatter_format almost_full)].
Proof.
  destruct (ConsoleTransport_write_channel scenario_code 0%nat JsonFormatter almost_full
              world_console eq_refl) as (w' & H1 & H2 & _).
  exists w'. split; [exact H1|exact H2].
Defined.

(** ** Construction of a logger *)

(** X12. [createLogger()] makes a logger at level INFO without context,
    with [SimpleFormatter], and with a transport list of its own: a new
    array holding one new console transport that formats with
    [SimpleFormatter].  Logger, array and transport are new objects and
    the objects of the store stay as they are, so the list is shared with
    no other logger. *)
Theorem createLogger_defaults (w : World) :
  exists (l arr t : ref) (w' : World),
    createLogger None w = Normal l w' /\
    loggers w !! l = None /\ arrays w !! arr = None /\ transports w !! t = None /\
    loggers w' !! l = Some (Logger.mk INFO None arr SimpleFormatter) /\
    arrays w' !! arr = Some [t] /\
    transports w' !! t = Some (ConsoleTransport SimpleFormatter) /\
    (forall l', l' <> l -> loggers w' !! l' = loggers w !! l') /\
    (forall a, a <> arr -> arrays w' !! a = arrays w !! a) /\
    (forall u, u <> t -> transports w' !! u = transports w !! u) /\
    console w' = console w.
Proof.
  eexists _, _, _, _. split; [reflexivity|].
  cbn [set_loggers set_arrays set_transports loggers arrays transports console].
  split; [apply not_elem_of_dom, is_fresh|].
  split; [apply not_elem_of_dom, is_fresh|].
  split; [apply not_elem_of_dom, is_fresh|].
  split; [apply lookup_insert_eq|]. split; [apply lookup_insert_eq|].
  split; [apply lookup_insert_eq|].
  repeat split; intros x Hx; apply lookup_insert_ne; congruence.
Qed.

(** X13. The level given to [createLogger] is the level [getLevel]
    returns, for each of the five levels, ERROR with its value 0 included;
    without a level in the options [getLevel] returns INFO.  When the
    options give a transport list, the new logger refers to that list and
    no transport and no array is created. *)
Theorem createLogger_getLevel (level : option LogLevel) (context : option string)
    (list : ref) (formatter : option Formatter) (w : World) :
  exists (l : ref) (w' : World),
    createLogger (Some (LoggerOptions.mk level context (Some list) formatter)) w
      = Normal l w' /\
    getLevel l w' = Normal (match level with Some lv => lv | None => INFO end) w' /\
    Logger.context <$> loggers w' !! l = Some context /\
    Logger.transports <$> loggers w' !! l = Some list /\
    arrays w' = arrays w /\ transports w' = transports w.
Proof.
  eexists _, _. split; [reflexivity|].
  unfold getLevel, get_logger. cbn [set_loggers loggers arrays transports].
  rewrite !lookup_insert_eq. destruct level; repeat split.
Qed.

(** [new Logger(options)] for options without a transport list, computed. *)
Lemma new_Logger_default_list (lvl : option LogLevel) (ctx : option string)
    (fmt : option Formatter) (w : World) :
  new_Logger (Some (LoggerOptions.mk lvl ctx None fmt)) w
  = Normal (fresh (dom (loggers w)))
      (mkWorld
         (<[fresh (dom (loggers w)) :=
              Logger.mk (default INFO lvl) ctx (fresh (dom (arrays w)))
                        (default SimpleFormatter fmt)]> (loggers w))
         (<[fresh (dom (arrays w)) := [fresh (dom (transports w))]]> (arrays w))
         (<[fresh (dom (transports w)) := ConsoleTransport SimpleFormatter]> (transports w))
         (console w) (now w)).
Proof. reflexivity. Qed.

(** X14. A logger created without a transport list writes to the console
    in the format of [SimpleFormatter], whatever formatter the logger
    itself was given: an accepted call makes one console call, on the
    channel of the call's level, and a call above the threshold makes
    none. *)
Theorem default_console_uses_SimpleFormatter (code : UserCode) (fuel : nat)
    (lvl : option LogLevel) (ctx : option string) (fmt : option Formatter)
    (level : LogLevel) (message : string) (options : option LogOptions.t) (w : World) :
  (2 <= fuel)%nat ->
  exists (l arr : ref) (w' : World),
    createLogger (Some (LoggerOptions.mk lvl ctx None fmt)) w = Normal l w' /\
    loggers w' !! l
      = Some (Logger.mk (default INFO lvl) ctx arr (default SimpleFormatter fmt)) /\
    console w' = console w /\
    (LogLevel_value level <= LogLevel_value (default INFO lvl) ->
     exists w'',
       outcome (log code fuel l level message options w') = Normal tt w'' /\
       console w''
       = (console w
            ++ [(console_channel level,
                 SimpleFormatter_format
                   (LogEntry.mk level message
                      (match options ≫= LogOptions.context with
                       | Some c => Some c
                       | None => ctx
                       end)
                      (now w) (options ≫= LogOptions.data)
                      (options ≫= LogOptions.error)))])%list) /\
    (LogLevel_value level > LogLevel_value (default INFO lvl) ->
     outcome (log code fuel l level message options w') = Normal tt w').
Proof.
  intros Hfuel. destruct fuel as [|[|fuel]]; try lia.
  eexists _, _, _. split; [apply new_Logger_default_list|].
  cbn [loggers console]. split; [apply lookup_insert_eq|]. split; [reflexivity|].
  unfold log. cbn [loggers]. rewrite !lookup_insert_eq.
  cbn [Logger.level Logger.transports]. split.
  - intros Hle. rewrite (level_passes level (default INFO lvl) Hle).
    cbn [dispatch arrays]. rewrite lookup_insert_eq. cbn [lookup list_lookup].
    unfold write. cbn [transports]. rewrite lookup_insert_eq.
    cbn [format set_console arrays]. rewrite lookup_insert_eq.
    cbn [lookup list_lookup outcome]. eexists. split; reflexivity.
  - intros Hgt.
    replace (LogLevel_value level >? LogLevel_value (default INFO lvl)) with true
      by (symmetry; apply Z.gtb_lt; lia).
    reflexivity.
Qed.

Lemma default_console_uses_SimpleFormatter_witness :
  exists (l arr : ref) (w' : World),
    createLogger (Some (LoggerOptions.mk (Some WARN) None None (Some JsonFormatter)))
                 world_memory = Normal l w' /\
    exists w'',
      outcome (log scenario_code 2 l ERROR "down" None w') = Normal tt w'' /\
      console w'' = [(console_error, "[ERROR] down")].
Proof.
  destruct (default_console_uses_SimpleFormatter scenario_code 2 (Some WARN) None
              (Some JsonFormatter) ERROR "down" None world_memory)
    as (l & arr & w' & H1 & _ & _ & H4 & _); [lia|].
  exists l, arr, w'. split; [exact H1|]. apply H4. simpl. lia.
Defined.

(** X15. A call at level ERROR is never filtered: [error] constructs its
    entry on every logger, whatever the threshold.  A call at level TRACE
    is filtered on every logger whose threshold is not TRACE. *)
Theorem error_never_filtered (code : UserCode) (fuel : nat) (this : ref) (L : Logger.t)
    (message : string) (options : option LogOptions.t) (w : World) :
  loggers w !! this = Some L ->
  entry_built (error code fuel this message options w)
    = Some (make_entry L ERROR message options (now w)) /\
  (entry_built (trace code fuel this message options w) = None
     <-> Logger.level L <> TRACE).
Proof.
  intros HL. unfold error, trace, log. rewrite HL.
  rewrite (level_passes ERROR (Logger.level L)) by (destruct (Logger.level L); simpl; lia).
  split.
  - destruct (dispatch code fuel (Logger.transports L) 0 _ w); reflexivity.
  - destruct (Logger.level L); cbn [LogLevel_value Z.gtb Z.compare Pos.compare Pos.compare_cont];
      try (split; [discriminate|reflexivity]).
    destruct (dispatch code fuel (Logger.transports L) 0 _ w). cbn [entry_built].
    split; [discriminate|]. intros H. contradiction H. reflexivity.
Qed.

Lemma error_never_filtered_witness :
  entry_built (error scenario_code 2 0%nat "down" None world_memory)
    = Some (LogEntry.mk ERROR "down" (Some "app") t0 None None) /\
  (entry_built (trace scenario_code 2 0%nat "down" None world_memory) = None
     <-> INFO <> TRACE).
Proof.
  apply (error_never_filtered scenario_code 2 0%nat
           (Logger.mk INFO (Some "app") 0%nat SimpleFormatter) "down" None world_memory).
  reflexivity.
Defined.

(** ** Level changes *)

(** X16. [setLevel(l)] changes the level of the logger and nothing else:
    [getLevel] then returns [l], the next [log] call filters by [l], the
    logger keeps its context, transport list and formatter, and the other
    loggers, the arrays and the transports stay as they are. *)
Theorem setLevel_takes_effect (code : UserCode) (fuel : nat) (this : ref) (L : Logger.t)
    (l : LogLevel) (w : World) :
  loggers w !! this = Some L ->
  exists w',
    setLevel this l w = Normal tt w' /\
    getLevel this w' = Normal l w' /\
    loggers w' !! this
      = Some (Logger.mk l (Logger.context L) (Logger.transports L) (Logger.formatter L)) /\
    (forall other, other <> this -> loggers w' !! other = loggers w !! other) /\
    arrays w' = arrays w /\ transports w' = transports w /\ console w' = console w /\
    (forall level message options,
        entry_built (log code fuel this level message options w')
        = if LogLevel_value level <=? LogLevel_value l
          then Some (make_entry L level message options (now w)) else None).
Proof.
  intros HL. unfold setLevel, get_logger. rewrite HL. cbn [bind].
  eexists. split; [reflexivity|].
  unfold getLevel, get_logger, log. cbn [set_loggers loggers arrays transports console now].
  rewrite !lookup_insert_eq. cbn [bind Logger.level Logger.transports].
  split; [reflexivity|]. split; [reflexivity|].
  split; [intros other Ho; apply lookup_insert_ne; congruence|].
  split; [reflexivity|]. split; [reflexivity|]. split; [reflexivity|].
  intros level message options. rewrite Z.gtb_ltb, Z.leb_antisym.
  destruct (LogLevel_value l <? LogLevel_value level); cbn [negb]; [reflexivity|].
  match goal with |- context [dispatch ?c ?f ?a ?i ?e ?w0] =>
    destruct (dispatch c f a i e w0) end.
  reflexivity.
Qed.

Lemma setLevel_takes_effect_witness :
  exists w',
    setLevel 0%nat ERROR world_memory = Normal tt w' /\
    getLevel 0%nat w' = Normal ERROR w' /\
    entry_built (log scenario_code 2 0%nat INFO "started" None w') = None.
Proof.
  destruct (setLevel_takes_effect scenario_code 2 0%nat
              (Logger.mk INFO (Some "app") 0%nat SimpleFormatter) ERROR world_memory eq_refl)
    as (w' & H1 & H2 & _ & _ & _ & _ & _ & H8).
  exists w'. split; [exact H1|]. split; [exact H2|]. apply (H8 INFO "started" None).
Defined.

(** X17. Parent and child keep their levels apart: after [child], a
    [setLevel] on the parent leaves the level of the child as it was, and
    a [setLevel] on the child leaves the level of the parent as it was. *)
Theorem child_level_independent (this : ref) (L : Logger.t) (s : string) (l : LogLevel)
    (w : World) :
  loggers w !! this = Some L ->
  exists (c : ref) (w' : World),
    child this s w = Normal c w' /\ c <> this /\
    (exists w1, setLevel this l w' = Normal tt w1 /\
                getLevel c w1 = Normal (Logger.level L) w1 /\
                getLevel this w1 = Normal l w1) /\
    (exists w2, setLevel c l w' = Normal tt w2 /\
                getLevel this w2 = Normal (Logger.level L) w2 /\
                getLevel c w2 = Normal l w2).
Proof.
  intros HL. pose proof (fresh_logger_unused w) as Hfresh.
  assert (Hne : fresh (dom (loggers w)) <> this).
  { intros Heq. rewrite Heq in Hfresh. congruence. }
  eexists _, _. split; [apply (child_unfold this L s w HL)|]. split; [exact Hne|].
  unfold setLevel, getLevel, get_logger. cbn [set_loggers loggers].
  rewrite lookup_insert_eq, (lookup_insert_ne _ _ _ _ Hne), HL. cbn [bind].
  split; eexists; (split; [reflexivity|]); cbn [set_loggers loggers].
  - rewrite lookup_insert_eq, lookup_insert_ne, lookup_insert_eq by congruence.
    split; reflexivity.
  - rewrite lookup_insert_eq, lookup_insert_ne, lookup_insert_ne, HL by congruence.
    split; reflexivity.
Qed.

Lemma child_level_independent_witness :
  exists (c : ref) (w' : World),
    child 0%nat "db" world_memory = Normal c w' /\
    exists w1, setLevel 0%nat TRACE w' = Normal tt w1 /\
               getLevel c w1 = Normal INFO w1.
Proof.
  destruct (child_level_independent 0%nat
              (Logger.mk INFO (Some "app") 0%nat SimpleFormatter) "db" TRACE world_memory
              eq_refl)
    as (c & w' & H1 & _ & (w1 & H3 & H4 & _) & _).
  exists c, w'. split; [exact H1|]. exists w1. split; assumption.
Defined.

(** ** Child loggers and the shared list *)

(** X18. Contexts compose: the child for [b] of the child for [a] has the
    context of the child for [a:b], the parent having a context that is
    not empty or [a] not being empty. *)
Theorem child_of_child_context (this : ref) (L : Logger.t) (a b : string) (w : World) :
  loggers w !! this = Some L ->
  truthy (Logger.context L) = true \/ a <> EmptyString ->
  exists (c1 : ref) (w1 : World) (c2 : ref) (w2 : World) (c3 : ref) (w3 : World),
    child this a w = Normal c1 w1 /\
    child c1 b w1 = Normal c2 w2 /\
    child this (a ++ ":" ++ b) w = Normal c3 w3 /\
    Logger.context <$> loggers w2 !! c2 = Logger.context <$> loggers w3 !! c3 /\
    Logger.context <$> loggers w3 !! c3
      = Some (Some (if truthy (Logger.context L)
                    then default EmptyString (Logger.context L) ++ ":" ++ a ++ ":" ++ b
                    else a ++ ":" ++ b)).
Proof.
  intros HL Hne.
  eexists _, _, _, _, _, _.
  split; [apply (child_unfold this L a w HL)|].
  split; [apply child_unfold; apply lookup_insert_eq|].
  split; [apply (child_unfold this L (a ++ ":" ++ b) w HL)|].
  cbn [set_loggers loggers]. rewrite !lookup_insert_eq.
  cbn [fmap option_fmap option_map Logger.context]. split; [|reflexivity].
  do 2 f_equal.
  destruct (Logger.context L) as [[|ch p]|]; cbn [truthy default].
  - destruct Hne as [Hne|Hne]; [discriminate|].
    destruct a as [|x a]; [congruence|]. reflexivity.
  - transitivity ((String ch p ++ ":" ++ a) ++ ":" ++ b); [reflexivity|].
    rewrite string_app_assoc. reflexivity.
  - destruct Hne as [Hne|Hne]; [discriminate|].
    destruct a as [|x a]; [congruence|]. reflexivity.
Qed.

Lemma child_of_child_context_witness :
  exists (c1 : ref) (w1 : World) (c2 : ref) (w2 : World),
    child 0%nat "db" world_memory = Normal c1 w1 /\
    child c1 "pool" w1 = Normal c2 w2 /\
    Logger.context <$> loggers w2 !! c2 = Some (Some "app:db:pool").
Proof.
  destruct (child_of_child_context 0%nat
              (Logger.mk INFO (Some "app") 0%nat SimpleFormatter) "db" "pool" world_memory
              eq_refl)
    as (c1 & w1 & c2 & w2 & c3 & w3 & H1 & H2 & _ & H4 & H5).
  - left. reflexivity.
  - exists c1, w1, c2, w2. split; [exact H1|]. split; [exact H2|].
    rewrite H4. exact H5.
Defined.

(** X19. Loggers that refer to the same list manage it alike: after
    [child], [addTransport] and [removeTransport] called on the child do
    to the store what they do when called on the parent. *)
Theorem child_manages_parent_list (this : ref) (L : Logger.t) (s : string) (w : World) :
  loggers w !! this = Some L ->
  exists (c : ref) (w' : World),
    child this s w = Normal c w' /\
    (forall t, addTransport c t w' = addTransport this t w') /\
    (forall name, removeTransport c name w' = removeTransport this name w').
Proof.
  intros HL. pose proof (fresh_logger_unused w) as Hfresh.
  assert (Hne : fresh (dom (loggers w)) <> this).
  { intros Heq. rewrite Heq in Hfresh. congruence. }
  eexists _, _. split; [apply (child_unfold this L s w HL)|].
  unfold addTransport, removeTransport, get_logger. cbn [set_loggers loggers].
  rewrite lookup_insert_eq, (lookup_insert_ne _ _ _ _ Hne), HL.
  split; reflexivity.
Qed.

Lemma child_manages_parent_list_witness :
  exists (c : ref) (w' : World),
    child 0%nat "db" world_memory = Normal c w' /\
    removeTransport c "memory" w' = removeTransport 0%nat "memory" w'.
Proof.
  destruct (child_manages_parent_list 0%nat
              (Logger.mk INFO (Some "app") 0%nat SimpleFormatter) "db" world_memory eq_refl)
    as (c & w' & H1 & _ & H3).
  exists c, w'. split; [exact H1|apply H3].
Defined.

(** ** Adding and removing transports *)

Lemma findIndex_spec {A} (p : A -> bool) (a : list A) :
  match findIndex p a with
  | Some i => exists pre t post, a = (pre ++ t :: post)%list /\ List.length pre = i /\
                                 p t = true /\ forall u, In u pre -> p u = false
  | None => forall u, In u a -> p u = false
  end.
Proof.
  induction a as [|x a IH]; simpl; [intros u []|].
  destruct (p x) eqn:Hx.
  - exists [], x, a. repeat split; auto. intros u [].
  - destruct (findIndex p a) as [i|]; simpl.
    + destruct IH as (pre & t & post & -> & Hlen & Ht & Hpre).
      exists (x :: pre), t, post. repeat split; simpl; auto.
      intros u [<-|Hu]; auto.
    + intros u [<-|Hu]; auto.
Qed.

Lemma world_eta (w : World) :
  mkWorld (loggers w) (arrays w) (transports w) (console w) (now w) = w.
Proof. destruct w; reflexivity. Qed.

(** X20. Adding a transport and then removing it by its name gives back
    the store as it was, when no transport of the list had that name:
    [removeTransport] returns [true] and the list is the former list. *)
Theorem add_then_remove (this : ref) (L : Logger.t) (a : list ref) (t : ref)
    (obj : Transport) (w : World) :
  loggers w !! this = Some L ->
  arrays w !! Logger.transports L = Some a ->
  transports w !! t = Some obj ->
  (forall u, In u a -> has_name w (Transport_name obj) u = false) ->
  exists w1,
    addTransport this t w = Normal tt w1 /\
    arrays w1 !! Logger.transports L = Some (a ++ [t])%list /\
    removeTransport this (Transport_name obj) w1 = Normal true w.
Proof.
  intros HL Ha Ht Hfree. unfold addTransport, get_logger, get_array.
  rewrite HL. cbn [bind]. rewrite Ha. cbn [bind].
  eexists. split; [reflexivity|].
  split; [cbn [set_arrays arrays]; apply lookup_insert_eq|].
  unfold removeTransport, get_logger, get_array. cbn [set_arrays loggers arrays].
  rewrite HL. cbn [bind set_arrays arrays]. rewrite lookup_insert_eq. cbn [bind].
  match goal with |- context [findIndex ?p _] =>
    rewrite (findIndex_first p a [] t)
  end.
  - rewrite splice1_middle, app_nil_r.
    unfold set_arrays; cbn [loggers arrays transports console now].
    rewrite insert_insert_eq, (insert_id _ _ _ Ha). f_equal. apply world_eta.
  - unfold has_name, set_arrays. cbn [transports]. rewrite Ht. apply String.eqb_refl.
  - intros u Hu. exact (Hfree u Hu).
Qed.

Lemma add_then_remove_witness :
  exists w1,
    addTransport 0%nat 1%nat world_spare = Normal tt w1 /\
    arrays w1 !! 0%nat = Some [0%nat; 2%nat; 1%nat] /\
    removeTransport 0%nat "console" w1 = Normal true world_spare.
Proof.
  apply (add_then_remove 0%nat (Logger.mk INFO (Some "app") 0%nat SimpleFormatter)
           [0%nat; 2%nat] 1%nat (ConsoleTransport SimpleFormatter) world_spare);
    try reflexivity.
  intros u [<-|[<-|[]]]; reflexivity.
Defined.

Lemma filter_first_match {A} (p q : A -> bool) (pre post : list A) (t : A) :
  List.filter q (pre ++ t :: post)
  = (List.filter q pre ++ (if q t then [t] else []) ++ List.filter q post)%list.
Proof.
  rewrite List.filter_app. cbn [List.filter]. destruct (q t); reflexivity.
Qed.

(** X21. [removeTransport] takes at most one transport out of the list:
    it returns [true] exactly when some transport of the list has the
    name; the list then is one shorter and has one transport of that name
    fewer, and the transports of other names are the same, in the same
    order.  Loggers and transport objects stay as they are. *)
Theorem removeTransport_at_most_one (this : ref) (L : Logger.t) (a : list ref)
    (name : string) (w : World) :
  loggers w !! this = Some L ->
  arrays w !! Logger.transports L = Some a ->
  exists (b : bool) (a' : list ref) (w' : World),
    removeTransport this name w = Normal b w' /\
    arrays w' !! Logger.transports L = Some a' /\
    (b = true <-> (0 < count_named w name a)%nat) /\
    (List.length a' + (if b then 1 else 0) = List.length a)%nat /\
    (count_named w name a' + (if b then 1 else 0) = count_named w name a)%nat /\
    List.filter (fun u => negb (has_name w name u)) a'
      = List.filter (fun u => negb (has_name w name u)) a /\
    loggers w' = loggers w /\ transports w' = transports w.
Proof.
  intros HL Ha. unfold removeTransport, get_logger, get_array.
  rewrite HL. cbn [bind]. rewrite Ha. cbn [bind].
  pose proof (findIndex_spec (has_name w name) a) as Hspec.
  destruct (findIndex (has_name w name) a) as [i|].
  - destruct Hspec as (pre & t & post & -> & <- & Ht & Hpre).
    exists true, (pre ++ post)%list. eexists. split; [reflexivity|].
    unfold set_arrays, count_named; cbn [arrays loggers transports].
    rewrite splice1_middle, lookup_insert_eq.
    rewrite !(filter_first_match (has_name w name)), Ht. cbn [negb].
    rewrite !List.filter_app, !length_app. cbn [List.length app].
    repeat split; try lia.
  - exists false, a, w. split; [reflexivity|]. split; [exact Ha|].
    assert (Hz : count_named w name a = 0%nat).
    { unfold count_named. clear Ha. induction a as [|u a IH]; [reflexivity|].
      cbn [List.filter]. rewrite (Hspec u) by (left; reflexivity).
      apply IH. intros v Hv. apply Hspec. right. exact Hv. }
    rewrite Hz. repeat split; try lia; try discriminate.
Qed.

Lemma removeTransport_at_most_one_witness :
  exists (b : bool) (a' : list ref) (w' : World),
    removeTransport 0%nat "memory" world_three = Normal b w' /\
    arrays w' !! 0%nat = Some a' /\
    (List.length a' + (if b then 1 else 0) = 3)%nat.
Proof.
  destruct (removeTransport_at_most_one 0%nat
              (Logger.mk INFO (Some "app") 0%nat SimpleFormatter)
              [0%nat; 1%nat; 2%nat] "memory" world_three eq_refl eq_refl)
    as (b & a' & w' & H1 & H2 & _ & H4 & _).
  exists b, a', w'. split; [exact H1|]. split; [exact H2|exact H4].
Defined.

(** ** Entries *)

(** X22. [errorWithException] always constructs its entry, at level ERROR
    and with the error argument in the [error] field, an [error] in the
    options being overridden; context and data are taken from the options
    as in [log]. *)
Theorem errorWithException_forces_error (code : UserCode) (fuel : nat) (this : ref)
    (L : Logger.t) (message : string) (err : JsError.t) (options : option LogOptions.t)
    (w : World) :
  loggers w !! this = Some L ->
  exists e,
    entry_built (errorWithException code fuel this message err options w) = Some e /\
    LogEntry.level e = ERROR /\
    LogEntry.message e = message /\
    LogEntry.error e = Some err /\
    LogEntry.data e = options ≫= LogOptions.data /\
    LogEntry.context e = match options ≫= LogOptions.context with
                         | Some c => Some c
                         | None => Logger.context L
                         end /\
    LogEntry.timestamp e = now w.
Proof.
  intros HL. unfold errorWithException, log. rewrite HL.
  rewrite (level_passes ERROR (Logger.level L)) by (destruct (Logger.level L); simpl; lia).
  eexists. split.
  - match goal with |- context [dispatch ?c ?f ?a ?i ?e ?w0] =>
      destruct (dispatch c f a i e w0) end.
    reflexivity.
  - repeat split.
Qed.

Lemma errorWithException_forces_error_witness :
  exists e,
    entry_built (errorWithException scenario_code 2 0%nat "failed" boom
                   (Some (LogOptions.mk None None
                            (Some (JsError.mk "Error" "another" None)))) world_memory)
      = Some e /\
    LogEntry.error e = Some boom.
Proof.
  destruct (errorWithException_forces_error scenario_code 2 0%nat
              (Logger.mk INFO (Some "app") 0%nat SimpleFormatter) "failed" boom
              (Some (LogOptions.mk None None (Some (JsError.mk "Error" "another" None))))
              world_memory eq_refl)
    as (e & H1 & _ & _ & H4 & _).
  exists e. split; assumption.
Defined.

(** X23. The empty string as the context of the options of a call
    overrides the default context of the logger: the entry carries the
    empty string, and the formatters render the entry without context. *)
Theorem empty_context_option (code : UserCode) (fuel : nat) (this : ref) (L : Logger.t)
    (level : LogLevel) (message : string) (d : option (list (string * JsValue)))
    (er : option JsError.t) (w : World) :
  loggers w !! this = Some L ->
  LogLevel_value level <= LogLevel_value (Logger.level L) ->
  exists e,
    entry_built (log code fuel this level message
                     (Some (LogOptions.mk (Some EmptyString) d er)) w) = Some e /\
    LogEntry.context e = Some EmptyString /\
    SimpleFormatter_format e = SimpleFormatter_format (with_context None e) /\
    TimestampedFormatter_format e = TimestampedFormatter_format (with_context None e) /\
    JsonFormatter_format e = JsonFormatter_format (with_context None e).
Proof.
  intros HL Hle. unfold log. rewrite HL, (level_passes level (Logger.level L) Hle).
  eexists. split.
  - match goal with |- context [dispatch ?c ?f ?a ?i ?e ?w0] =>
      destruct (dispatch c f a i e w0) end.
    reflexivity.
  - split; [reflexivity|].
    set (e := make_entry L level message _ (now w)).
    destruct (empty_context_formatting e) as (Hs & Ht & Hj & _).
    split; [exact Hs|]. split; [exact Ht|].
    unfold JsonFormatter_format. rewrite <- Hj. reflexivity.
Qed.

Lemma empty_context_option_witness :
  exists e,
    entry_built (log scenario_code 2 0%nat INFO "started"
                     (Some (LogOptions.mk (Some EmptyString) None None)) world_memory)
      = Some e /\
    SimpleFormatter_format e = "[INFO] started".
Proof.
  destruct (empty_context_option scenario_code 2 0%nat
              (Logger.mk INFO (Some "app") 0%nat SimpleFormatter) INFO "started" None None
              world_memory eq_refl)
    as (e & H1 & H2 & H3 & _); [simpl; lia|].
  exists e. split; [exact H1|]. rewrite H3.
  vm_compute in H1. injection H1 as <-. reflexivity.
Defined.

(** X24. Every [write] call a [log] call makes carries the entry the call
    constructed, whatever the transports do: no call of [write] is made
    without an entry, and none with another entry. *)
Theorem writes_carry_the_entry (code : UserCode) (fuel : nat) (this : ref)
    (level : LogLevel) (message : string) (options : option LogOptions.t) (w : World)
    (t : ref) (e : LogEntry.t) :
  In (t, e) (writes (log code fuel this level message options w)) ->
  entry_built (log code fuel this level message options w) = Some e.
Proof.
  unfold log. destruct (loggers w !! this) as [L|]; [|intros []].
  destruct (LogLevel_value level >? LogLevel_value (Logger.level L)); [intros []|].
  set (entry := make_entry L level message options (now w)).
  assert (Hall : forall fuel i w0 t e,
             In (t, e) (dispatch code fuel (Logger.transports L) i entry w0).1 -> e = entry).
  { clear. induction fuel as [|fuel IH]; intros i w0 t e; cbn [dispatch]; [intros []|].
    destruct (arrays w0 !! Logger.transports L) as [a|]; [|intros []].
    destruct (a !! i) as [u|]; [|intros []].
    destruct (write code u entry w0) as [[] w1|x w1| |].
    - specialize (IH (S i) w1 t e).
      destruct (dispatch code fuel (Logger.transports L) (S i) entry w1).
      cbn [fst In] in *. intros [[= _ <-]|H]; [reflexivity|auto].
    - intros [[= _ <-]|[]]. reflexivity.
    - intros [[= _ <-]|[]]. reflexivity.
    - intros [[= _ <-]|[]]. reflexivity. }
  specialize (Hall fuel 0%nat w t e).
  destruct (dispatch code fuel (Logger.transports L) 0 entry w).
  cbn [writes entry_built fst] in *. intros H. f_equal. symmetry. auto.
Qed.

Lemma writes_carry_the_entry_witness :
  entry_built (log scenario_code 5 0%nat INFO "started" None world_adder) = Some started.
Proof.
  apply (writes_carry_the_entry scenario_code 5 0%nat INFO "started" None world_adder 1%nat).
  right. left. reflexivity.
Defined.

(** ** Dispatch *)

Section MemoryDispatch.
Variables (code : UserCode) (arr : ref) (entry : LogEntry.t) (m : ref) (n : nat).

End MemoryDispatch.



(** Dispatch over a list in which every index it reaches holds a
    transport uses up any bound on its steps. *)
Lemma dispatch_never_ends (code : UserCode) (arr : ref) (entry : LogEntry.t)
    (Inv : nat -> World -> Prop) :
  (forall i w, Inv i w ->
     exists a t w1, arrays w !! arr = Some a /\ a !! i = Some t /\
                    write code t entry w = Normal tt w1 /\ Inv (S i) w1) ->
  forall fuel i w, Inv i w ->
    (dispatch code fuel arr i entry w).2 = OutOfFuel /\
    List.length (dispatch code fuel arr i entry w).1 = fuel.
Proof.
  intros Hgrow. induction fuel as [|fuel IH]; intros i w Hinv; [split; reflexivity|].
  destruct (Hgrow i w Hinv) as (a & t & w1 & Ha & Hi & Hw & Hinv1).
  rewrite (dispatch_step code arr entry fuel i a t w w1 Ha Hi Hw).
  destruct (IH (S i) w1 Hinv1) as [Hout Hlen]. cbn [fst snd List.length].
  split; [exact Hout|]. rewrite Hlen. reflexivity.
Qed.

(** X26. [log] does not return when the list grows as fast as dispatch
    advances: if at every index dispatch reaches there is a transport
    whose [write] returns, as when a [write] adds a transport to the
    logger it is called from, every bound on the number of steps is used
    up, with one [write] call per step. *)
Theorem log_never_returns_on_growing_list (code : UserCode) (this : ref) (L : Logger.t)
    (level : LogLevel) (message : string) (options : option LogOptions.t) (w : World)
    (Inv : nat -> World -> Prop) :
  loggers w !! this = Some L ->
  LogLevel_value level <= LogLevel_value (Logger.level L) ->
  (forall i w0, Inv i w0 ->
     exists a t w1,
       arrays w0 !! Logger.transports L = Some a /\ a !! i = Some t /\
       write code t (make_entry L level message options (now w)) w0 = Normal tt w1 /\
       Inv (S i) w1) ->
  Inv 0%nat w ->
  forall fuel,
    outcome (log code fuel this level message options w) = OutOfFuel /\
    List.length (writes (log code fuel this level message options w)) = fuel.
Proof.
  intros HL Hle Hgrow Hinv fuel. unfold log.
  rewrite HL, (level_passes level (Logger.level L) Hle).
  destruct (dispatch_never_ends code (Logger.transports L) _ Inv Hgrow fuel 0%nat w Hinv)
    as [Hout Hlen].
  destruct (dispatch code fuel (Logger.transports L) 0 _ w). exact (conj Hout Hlen).
Qed.

Lemma echo_grows (entry : LogEntry.t) (i : nat) (w0 : World) :
  echo_inv i w0 ->
  exists a t w1,
    arrays w0 !! 0%nat = Some a /\ a !! i = Some t /\
    write echo_code t entry w0 = Normal tt w1 /\ echo_inv (S i) w1.
Proof.
  intros (Hl & Ht & Ha).
  exists (replicate (S i) 0%nat), 0%nat. eexists.
  split; [exact Ha|]. split; [apply lookup_replicate_2; lia|].
  unfold write. rewrite Ht. cbn [echo_code write_fn].
  unfold addTransport, get_logger, get_array. rewrite Hl. cbn [bind Logger.transports].
  rewrite Ha. cbn [bind]. split; [reflexivity|].
  unfold echo_inv, set_arrays; cbn [loggers arrays transports].
  split; [exact Hl|]. split; [exact Ht|].
  rewrite lookup_insert_eq, <- replicate_S_end. reflexivity.
Qed.

Lemma log_never_returns_on_growing_list_witness :
  outcome (log echo_code 50 0%nat INFO "started" None world_echo) = OutOfFuel /\
  List.length (writes (log echo_code 50 0%nat INFO "started" None world_echo)) = 50%nat.
Proof.
  apply (log_never_returns_on_growing_list echo_code 0%nat
           (Logger.mk INFO (Some "app") 0%nat SimpleFormatter)
           INFO "started" None world_echo echo_inv).
  - reflexivity.
  - simpl. lia.
  - intros i w0. apply echo_grows.
  - repeat split.
Defined.

(** [log] passes the store from one [write] to the next and does nothing
    else to it. *)
Lemma dispatch_frame (code : UserCode) (arr : ref) (entry : LogEntry.t)
    (P : World -> Prop) :
  (forall t w0 w1, P w0 -> final_world (write code t entry w0) = Some w1 -> P w1) ->
  forall fuel i w w',
    P w -> final_world (dispatch code fuel arr i entry w).2 = Some w' -> P w'.
Proof.
  intros Hkeep. induction fuel as [|fuel IH]; intros i w w' HP; cbn [dispatch];
    [discriminate|].
  destruct (arrays w !! arr) as [a|]; [|discriminate].
  destruct (a !! i) as [t|]; [|intros [= <-]; exact HP].
  pose proof (Hkeep t w) as Hk.
  destruct (write code t entry w) as [[] w1|x w1| |]; cbn [final_world] in *.
  - specialize (IH (S i) w1 w' (Hk w1 HP eq_refl)).
    destruct (dispatch code fuel arr (S i) entry w1). exact IH.
  - intros [= <-]. exact (Hk w1 HP eq_refl).
  - discriminate.
  - discriminate.
Qed.

(** X27. [log] changes the store only through the [write] calls it makes:
    a property of the store that every [write] keeps holds of the store
    [log] leaves, whether it returns or throws.  [log] itself assigns to
    no logger, no list and no transport. *)
Theorem log_frame (code : UserCode) (fuel : nat) (this : ref) (level : LogLevel)
    (message : string) (options : option LogOptions.t) (w w' : World)
    (P : World -> Prop) :
  (forall t e w0 w1, P w0 -> final_world (write code t e w0) = Some w1 -> P w1) ->
  P w ->
  final_world (outcome (log code fuel this level message options w)) = Some w' ->
  P w'.
Proof.
  intros Hkeep HP. unfold log. destruct (loggers w !! this) as [L|]; [|discriminate].
  destruct (LogLevel_value level >? LogLevel_value (Logger.level L));
    [intros [= <-]; exact HP|].
  pose proof (dispatch_frame code (Logger.transports L)
                (make_entry L level message options (now w)) P
                (fun t => Hkeep t _) fuel 0%nat w w' HP) as H.
  destruct (dispatch code fuel (Logger.transports L) 0 _ w). exact H.
Qed.

(** The user code of the scenarios leaves the loggers as they are. *)
Lemma scenario_code_keeps_loggers (Ls : gmap nat Logger.t) (t : ref) (e : LogEntry.t)
    (w0 w1 : World) :
  loggers w0 = Ls -> final_world (write scenario_code t e w0) = Some w1 -> loggers w1 = Ls.
Proof.
  intros HP. unfold write.
  destruct (transports w0 !! t) as [[f|es|[k|] f|nm k]|]; cbn [final_world];
    try discriminate; try (intros [= <-]; exact HP).
  destruct k as [|[|[|k]]]; cbn [scenario_code write_fn final_world];
    try (intros [= <-]; exact HP).
  - unfold addTransport, get_logger, get_array.
    destruct (loggers w0 !! 0%nat) as [L|]; [|discriminate]. cbn [bind].
    destruct (arrays w0 !! Logger.transports L); [|discriminate]. cbn [bind final_world].
    intros [= <-]. exact HP.
  - unfold removeTransport, get_logger, get_array.
    destruct (loggers w0 !! 0%nat) as [L|]; [|discriminate]. cbn [bind].
    destruct (arrays w0 !! Logger.transports L) as [a|]; [|discriminate]. cbn [bind].
    destruct (findIndex (has_name w0 "memory") a); cbn [bind final_world];
      intros [= <-]; exact HP.
Qed.

Lemma log_frame_witness :
  exists w',
    final_world (outcome (log scenario_code 5 0%nat INFO "started" None world_remover))
      = Some w' /\
    loggers w' = loggers world_remover.
Proof.
  eexists. split; [reflexivity|].
  apply (log_frame scenario_code 5 0%nat INFO "started" None world_remover _
           (fun w => loggers w = loggers world_remover)).
  - intros t e w0 w1. apply scenario_code_keeps_loggers.
  - reflexivity.
  - reflexivity.
Defined.

(** ** The default logger *)

(** The first call of [getDefaultLogger], computed. *)
Lemma getDefaultLogger_first (w : World) :
  getDefaultLogger None w
  = Normal (fresh (dom (loggers w)), Some (fresh (dom (loggers w))))
      (mkWorld
         (<[fresh (dom (loggers w)) :=
              Logger.mk INFO None (fresh (dom (arrays w))) SimpleFormatter]> (loggers w))
         (<[fresh (dom (arrays w)) := [fresh (dom (transports w))]]> (arrays w))
         (<[fresh (dom (transports w)) := ConsoleTransport SimpleFormatter]> (transports w))
         (console w) (now w)).
Proof. reflexivity. Qed.

(** X28. [getDefaultLogger] creates a logger on the first call, with the
    defaults of [createLogger()], and returns that same logger, creating
    nothing, as long as the variable holds it.  After [resetDefaultLogger]
    the next call creates another logger, and the former one stays in the
    store; after [setDefaultLogger(custom)] the next call returns
    [custom]. *)
Theorem default_logger_singleton (custom : ref) (w : World) :
  exists (l : ref) (w1 : World),
    getDefaultLogger None w = Normal (l, Some l) w1 /\
    loggers w !! l = None /\
    getLevel l w1 = Normal INFO w1 /\
    getDefaultLogger (Some l) w1 = Normal (l, Some l) w1 /\
    (exists (l2 : ref) (w2 : World),
        (call (r, w) <- resetDefaultLogger (Some l) w1; getDefaultLogger r.2 w)
          = Normal (l2, Some l2) w2 /\
        l2 <> l /\ loggers w2 !! l = loggers w1 !! l) /\
    (call (r, w) <- setDefaultLogger custom (Some l) w1; getDefaultLogger r.2 w)
      = Normal (custom, Some custom) w1.
Proof.
  eexists _, _. split; [apply getDefaultLogger_first|].
  split; [apply not_elem_of_dom, is_fresh|].
  split; [unfold getLevel, get_logger; cbn [loggers]; rewrite lookup_insert_eq; reflexivity|].
  split; [reflexivity|]. split; [|reflexivity].
  eexists _, _. split; [cbn [resetDefaultLogger bind snd]; apply getDefaultLogger_first|].
  cbn [loggers].
  match goal with |- fresh (dom ?m) <> ?l /\ _ =>
    assert (Hne : fresh (dom m) <> l);
      [intros Heq; pose proof (is_fresh (dom m)) as Hf; rewrite Heq in Hf;
       apply Hf, elem_of_dom; rewrite lookup_insert_eq; eexists; reflexivity|]
  end.
  split; [exact Hne|]. apply lookup_insert_ne. exact Hne.
Qed.
